(** * The treeline plugin for the cf command line: dispatcher and provisioner

    A shallow embedding of [main.go].  The plugin is a straight-line script
    over the operating system (search path, files, child processes) and the
    platform connection handed in by the host.  Every call that leaves the
    process is an [event]; a [World] holds what those calls read and change
    (the files of the working directory, the platform's services), what
    decides whether a call fails, and the history of events so far.  The Go
    code becomes a program in a state monad over [World] whose results also
    record [os.Exit] and a run-time panic. *)

From Stdlib Require Import ZArith String Ascii.
From stdpp Require Import base option list gmap strings fin_maps.

Local Open Scope Z_scope.
Local Open Scope string_scope.
Local Open Scope list_scope.

(** ** Values of the Go program *)

(** A Go [error] value, as far as the program and its callers can tell
    errors apart: [os.IsNotExist] recognises [ErrNotExist], [os.Symlink]
    reports [ErrExist] for a name that is taken, a chain of symbolic links
    that does not end gives [ErrLoop], and [Wait] of [exec.Cmd] returns an
    [ExitError] for a child that exits with a status other than 0. *)
Inductive error : Type :=
| ErrNotExist
| ErrExist
| ErrLoop
| ExitError (status : Z)
| ErrOther (msg : string).

(** An element of the slice [GetServices] returns: the fields
    [createServices] reads. *)
Record Service : Type := mkService {
  Name : string;
  ApplicationNames : list string
}.

(** [exec.Cmd] with the two streams the program wires to its own. *)
Record Cmd : Type := mkCmd {
  Path : string;
  Args : list string;
  Stdin : bool;
  Stdout : bool
}.

(** An operand of [fmt.Println]. *)
Inductive operand : Type :=
| Str (s : string)
| Err (e : error).

(** ** Events: every call that leaves the process *)
Inductive event : Type :=
| LookPath (file : string)
| Println (a : list operand)
| Exit (code : Z)
| WriteFile (filename data : string) (perm : Z)
| Stat (name : string)
| Symlink (oldname newname : string)
| CmdRun (c : Cmd)
| CmdStart (c : Cmd)
| CmdWait (c : Cmd)
| CliCommand (args : list string)
| GetServices.

(** ** The world outside the process *)

(** A directory entry: a regular file with its bytes, or a symbolic link
    with the name it points at.  Names are relative to the working
    directory, which the program never leaves. *)
Inductive node : Type :=
| File (data : string)
| Link (target : string).

(** [fault history call] is the environment's verdict on [call] after
    [history]: [Some e] makes the call fail with [e] (tool not on the search
    path, permission denied, the platform refusing a command, a child
    exiting with a non-zero status, ...).  A call the environment lets
    through can still fail for what the files are: see [os_Stat],
    [os_Symlink] and [ioutil_WriteFile].  [trace] is the history, oldest
    event first. *)
Record World : Type := mkWorld {
  fs : gmap string node;
  platform : list Service;
  fault : list event -> event -> option error;
  trace : list event
}.

Definition record (e : event) (w : World) : World :=
  mkWorld (fs w) (platform w) (fault w) (trace w ++ [e]).

Definition set_fs (m : gmap string node) (w : World) : World :=
  mkWorld m (platform w) (fault w) (trace w).

(** ** The monad of the program

    A computation takes the world and gives back the world it leaves and how
    it ended: with a value, by [os.Exit], or by a run-time panic.  The last
    two skip the rest of the program. *)
Inductive result (A : Type) : Type :=
| Returned (a : A)
| Exited (code : Z)
| Panicked.
Arguments Returned {A} a.
Arguments Exited {A} code.
Arguments Panicked {A}.

Definition M (A : Type) : Type := World -> result A * World.

Definition ret {A : Type} (a : A) : M A := fun w => (Returned a, w).

Definition bind {A B : Type} (m : M A) (k : A -> M B) : M B :=
  fun w =>
    match m w with
    | (Returned a, w') => k a w'
    | (Exited c, w') => (Exited c, w')
    | (Panicked, w') => (Panicked, w')
    end.

Declare Scope go_scope.
Delimit Scope go_scope with go.
Notation "x <- m ;; k" := (bind m (fun x => k))
  (at level 100, m at next level, right associativity) : go_scope.
Notation "m ;;; k" := (bind m (fun _ => k))
  (at level 100, right associativity) : go_scope.
Local Open Scope go_scope.

(** [if cond { body }] with no else branch. *)
Definition when (cond : bool) (body : M unit) : M unit :=
  if cond then body else ret tt.

(** [for _, value := range xs { body }]. *)
Fixpoint for_range {A : Type} (xs : list A) (body : A -> M unit) : M unit :=
  match xs with
  | [] => ret tt
  | x :: xs' => body x ;;; for_range xs' body
  end.

(** [args[i]]: an index out of range panics. *)
Definition index (args : list string) (i : nat) : M string :=
  fun w =>
    match args !! i with
    | Some a => (Returned a, w)
    | None => (Panicked, w)
    end.

(** [args[i:]]: a lower bound beyond the length panics. *)
Definition slice_from (args : list string) (i : nat) : M (list string) :=
  fun w =>
    if (i <=? length args)%nat then (Returned (drop i args), w)
    else (Panicked, w).

(** [if err != nil { body }], where the body may use [err]. *)
Definition if_err (err : option error) (body : error -> M unit) : M unit :=
  match err with
  | Some e => body e
  | None => ret tt
  end.

(** ** The operating system and the platform, call by call *)

Definition os_Exit {A : Type} (code : Z) : M A :=
  fun w => (Exited code, record (Exit code) w).

Definition fmt_Println (a : list operand) : M unit :=
  fun w => (Returned tt, record (Println a) w).

(** A call whose only trace in the world is the event itself. *)
Definition call (e : event) : M (option error) :=
  fun w => (Returned (fault w (trace w) e), record e w).

Definition exec_LookPath (file : string) : M (option error) :=
  call (LookPath file).

(** Where a name leads when symbolic links are followed, as [stat] and
    [open] do: to a regular file, to a name with no entry (the name itself or
    the end of a chain of links), or nowhere within the limit. *)
Inductive resolved : Type :=
| AtFile (name data : string)
| Missing (name : string)
| TooManyLinks.

Fixpoint resolve (fuel : nat) (m : gmap string node) (name : string) : resolved :=
  match m !! name with
  | None => Missing name
  | Some (File d) => AtFile name d
  | Some (Link t) =>
      match fuel with
      | O => TooManyLinks
      | S fuel' => resolve fuel' m t
      end
  end.

Definition maxSymlinks : nat := 40.

(** What a reader of [name] gets. *)
Definition contents (m : gmap string node) (name : string) : option string :=
  match resolve maxSymlinks m name with
  | AtFile _ d => Some d
  | _ => None
  end.

(** [os.Stat] follows symbolic links: a link whose target has no entry is
    reported as not existing. *)
Definition os_Stat (name : string) : M (option error) :=
  fun w =>
    let err :=
      match fault w (trace w) (Stat name) with
      | Some e => Some e
      | None =>
          match resolve maxSymlinks (fs w) name with
          | AtFile _ _ => None
          | Missing _ => Some ErrNotExist
          | TooManyLinks => Some ErrLoop
          end
      end in
    (Returned err, record (Stat name) w).

Definition os_IsNotExist (err : option error) : bool :=
  match err with
  | Some ErrNotExist => true
  | _ => false
  end.

(** [os.Symlink] does not follow links: any entry under [newname], a link
    included, makes it fail. *)
Definition os_Symlink (oldname newname : string) : M (option error) :=
  fun w =>
    let e := Symlink oldname newname in
    match fault w (trace w) e with
    | Some err => (Returned (Some err), record e w)
    | None =>
        match fs w !! newname with
        | Some _ => (Returned (Some ErrExist), record e w)
        | None =>
            (Returned None,
             record e (set_fs (<[newname := Link oldname]> (fs w)) w))
        end
    end.

(** [ioutil.WriteFile] opens the name for writing, creating or truncating
    the file the name leads to, and writes [data].  A write that fails is
    taken to leave the files as they were. *)
Definition ioutil_WriteFile (filename data : string) (perm : Z) : M (option error) :=
  fun w =>
    let e := WriteFile filename data perm in
    match fault w (trace w) e with
    | Some err => (Returned (Some err), record e w)
    | None =>
        match resolve maxSymlinks (fs w) filename with
        | AtFile n _ | Missing n =>
            (Returned None, record e (set_fs (<[n := File data]> (fs w)) w))
        | TooManyLinks => (Returned (Some ErrLoop), record e w)
        end
    end.

Definition exec_Command (name : string) (arg : list string) : Cmd :=
  mkCmd name (name :: arg) false false.

Definition set_Stdin (c : Cmd) : Cmd := mkCmd (Path c) (Args c) true (Stdout c).
Definition set_Stdout (c : Cmd) : Cmd := mkCmd (Path c) (Args c) (Stdin c) true.

Definition Cmd_Run (c : Cmd) : M (option error) := call (CmdRun c).
Definition Cmd_Start (c : Cmd) : M (option error) := call (CmdStart c).
Definition Cmd_Wait (c : Cmd) : M (option error) := call (CmdWait c).

(** [cliConnection.CliCommand(args...)]; the output lines are dropped by
    every caller. *)
Definition CliConnection_CliCommand (args : list string) : M (option error) :=
  call (CliCommand args).

Definition CliConnection_GetServices : M (list Service * option error) :=
  fun w =>
    match fault w (trace w) GetServices with
    | Some err => (Returned ([], Some err), record GetServices w)
    | None => (Returned (platform w, None), record GetServices w)
    end.

(** ** The program *)

Definition dquote : string := String (ascii_of_nat 34) EmptyString.

(** The two literals of [writeDevelopmentConfig], byte for byte: each starts
    with the line feed after the opening back quote and ends with the one
    before the closing back quote. *)
Definition developmentConfig : string :=
  "
/**
 * Development environment settings
 */

if (process.env.VCAP_SERVICES) {
  vcapServices = JSON.parse(process.env.VCAP_SERVICES);

  module.exports = {

    /***************************************************************************
     * Set the default database connection for models in the development       *
     * environment (see config/connections.js and config/models.js )           *
     ***************************************************************************/

    models: {
      connection: 'sailsPsql',
      migrate: 'drop'
    },
    connections: {
      sailsPsql: {
        adapter: 'sails-postgresql',
        url: vcapServices.elephantsql[0].credentials.uri
      }
    },

    /***************************************************************************
     * Session configuration                                                   *
     ***************************************************************************/

    session: {
      adapter: 'redis',
      host: vcapServices.rediscloud[0].credentials.hostname,
      port: vcapServices.rediscloud[0].credentials.port,
      pass: vcapServices.rediscloud[0].credentials.password,
      prefix: 'sess:',
      // ttl: <redis session TTL in seconds>,
      // db: 0,
    },

    /***************************************************************************
     * WebSocket Configuration                                                 *
     ***************************************************************************/

    sockets: {
      adapter: 'socket.io-redis',
      host: vcapServices.rediscloud[0].credentials.hostname,
      port: vcapServices.rediscloud[0].credentials.port,
      pass: vcapServices.rediscloud[0].credentials.password,
      // db: 'sails',
    },

    /***************************************************************************
     * Set the port in the development environment to 80                       *
     ***************************************************************************/

    port: process.env.PORT,

    /***************************************************************************
     * Set the log level in development environment to " +:+ dquote +:+ "silent" +:+ dquote +:+ "                *
     ***************************************************************************/

    log: {
       level: " +:+ dquote +:+ "verbose" +:+ dquote +:+ "
    }

  };
}
".

Definition localConfig : string :=
  "
/**
 * Local environment settings
 */

module.exports = {

  /***************************************************************************
   * Set the default database connection for models in the local             *
   * environment (see config/connections.js and config/models.js )           *
   ***************************************************************************/

  models: {
    connection: 'localDiskDb',
  },
  connections: {
    localDiskDb: {
      adapter: 'sails-disk',
    }
  },

  /***************************************************************************
   * Session configuration                                                   *
   ***************************************************************************/

  session: {
  },

  /***************************************************************************
   * WebSocket Configuration                                                 *
   ***************************************************************************/

  sockets: {
  },

  /***************************************************************************
   * Set the port in the development environment to 80                       *
   ***************************************************************************/

  port: process.env.PORT || 1337,

  /***************************************************************************
   * Set the log level in development environment to " +:+ dquote +:+ "silent" +:+ dquote +:+ "                *
   ***************************************************************************/

  log: {
     level: " +:+ dquote +:+ "verbose" +:+ dquote +:+ "
  }

};
".

Definition writeDevelopmentConfig : M unit :=
  err <- ioutil_WriteFile "config/env/development.js" developmentConfig 420 ;;
  if_err err (fun e =>
    fmt_Println [Str "Error writing configuration"; Err e] ;;;
    os_Exit 1) ;;;
  fmt_Println [Str "Updated config/env/development.js"] ;;;
  err <- ioutil_WriteFile "config/local.js" localConfig 420 ;;
  if_err err (fun e =>
    fmt_Println [Str "Error writing configuration"; Err e] ;;;
    os_Exit 1) ;;;
  fmt_Println [Str "Updated config/local.js"].

Definition packages : list string :=
  ["connect-redis@1.4.5"; "sails-postgresql"; "socket.io-redis"].

Definition npmSetup (value : string) : Cmd :=
  set_Stdout (exec_Command "npm" ["install"; value; "--save"; "--save-exact"]).

Definition npmInstalls : M unit :=
  for_range packages (fun value =>
    err <- Cmd_Run (npmSetup value) ;;
    if_err err (fun e =>
      fmt_Println [Str "Error installing npm packages"; Err e])).

(** The four flags of the scan in [createServices]. *)
Record flags : Type := mkFlags {
  redisFound : bool;
  redisBound : bool;
  sqlFound : bool;
  sqlBound : bool
}.

(** The inner loop: [bound] becomes true at an application named
    [hackday-nc] and is never reset. *)
Definition scan_apps (apps : list string) (bound : bool) : bool :=
  fold_left (fun b app => if app =? "hackday-nc" then true else b) apps bound.

(** One round of the outer loop. *)
Definition scan_service (fl : flags) (service : Service) : flags :=
  let fl :=
    if Name service =? "hackday-rediscloud"
    then mkFlags true (scan_apps (ApplicationNames service) (redisBound fl))
                 (sqlFound fl) (sqlBound fl)
    else fl in
  if Name service =? "hackday-elephantsql"
  then mkFlags (redisFound fl) (redisBound fl)
               true (scan_apps (ApplicationNames service) (sqlBound fl))
  else fl.

Definition scan (services : list Service) : flags :=
  fold_left scan_service services (mkFlags false false false false).

Definition createServices : M unit :=
  r <- CliConnection_GetServices ;;
  let '(services, err) := r in
  if_err err (fun e => fmt_Println [Err e] ;;; os_Exit 1) ;;;
  let fl := scan services in
  when (negb (redisFound fl))
    (err <- CliConnection_CliCommand ["cs"; "rediscloud"; "30mb"; "hackday-rediscloud"] ;;
     if_err err (fun e => fmt_Println [Err e] ;;; os_Exit 1)) ;;;
  when (negb (redisBound fl))
    (err <- CliConnection_CliCommand ["bs"; "hackday-nc"; "hackday-rediscloud"] ;;
     if_err err (fun e => fmt_Println [Err e] ;;; os_Exit 1)) ;;;
  when (negb (sqlFound fl))
    (err <- CliConnection_CliCommand ["cs"; "elephantsql"; "turtle"; "hackday-elephantsql"] ;;
     if_err err (fun e => fmt_Println [Err e] ;;; os_Exit 1)) ;;;
  when (negb (sqlBound fl))
    (err <- CliConnection_CliCommand ["bs"; "hackday-nc"; "hackday-elephantsql"] ;;
     if_err err (fun e => fmt_Println [Err e] ;;; os_Exit 1)).

(** [Run]: the entry point the host calls with the command line, the
    command name first. *)
Definition Run (args : list string) : M unit :=
  a0 <- index args 0 ;;
  when (a0 =? "treeline")
    (err <- exec_LookPath "treeline" ;;
     if_err err (fun _ =>
       fmt_Println [Str "Please install treeline using 'npm install -g treeline'"] ;;;
       os_Exit 1) ;;;
     a1 <- index args 1 ;;
     when (a1 =? "config-pws")
       (writeDevelopmentConfig ;;;
        err <- os_Stat ".cfignore" ;;
        when (os_IsNotExist err)
          (err <- os_Symlink ".gitignore" ".cfignore" ;;
           if_err err (fun e =>
             fmt_Println [Str "Could not link .cfignore to .gitignore"; Err e] ;;;
             os_Exit 1)) ;;;
        npmInstalls ;;;
        os_Exit 0) ;;;
     a1 <- index args 1 ;;
     when (a1 =? "deploy")
       (err <- CliConnection_CliCommand ["push"; "hackday-nc"; "--no-start"] ;;
        if_err err (fun e => fmt_Println [Err e] ;;; os_Exit 1) ;;;
        err <- CliConnection_CliCommand ["set-env"; "hackday-nc"; "NODE_ENV"; "development"] ;;
        if_err err (fun e => fmt_Println [Err e] ;;; os_Exit 1) ;;;
        createServices ;;;
        err <- CliConnection_CliCommand ["start"; "hackday-nc"] ;;
        if_err err (fun e => fmt_Println [Err e] ;;; os_Exit 1) ;;;
        os_Exit 0) ;;;
     tail <- slice_from args 1 ;;
     let cmd := set_Stdout (set_Stdin (exec_Command "treeline" tail)) in
     err <- Cmd_Start cmd ;;
     if_err err (fun e =>
       fmt_Println [Str "Error starting command"; Err e] ;;; os_Exit 1) ;;;
     err <- Cmd_Wait cmd ;;
     if_err err (fun e =>
       fmt_Println [Str "Error running command"; Err e] ;;; os_Exit 1)).

(** The status the host's process ends with: 0 after a normal return of
    [Run], the argument of [os.Exit], 2 after a panic of the Go run time. *)
Definition exit_status {A : Type} (r : result A) : Z :=
  match r with
  | Returned _ => 0
  | Exited code => code
  | Panicked => 2
  end.

(** ** Vocabulary of the properties *)

(** The world after the events [evs], files and platform untouched. *)
Definition extend (w : World) (evs : list event) : World :=
  mkWorld (fs w) (platform w) (fault w) (trace w ++ evs).

(** [w'] is reached from [w] by the events [evs]: the environment and the
    platform are the same, files may differ. *)
Definition steps (w : World) (evs : list event) (w' : World) : Prop :=
  fault w' = fault w /\ platform w' = platform w /\ trace w' = trace w ++ evs.

(** The events a computation adds to the history of [w]. *)
Definition emitted {A : Type} (m : M A) (w : World) : list event :=
  drop (length (trace w)) (trace (m w).2).

(** [exec.LookPath file] finds [file] when called in [w]. *)
Definition resolvable (w : World) (file : string) : Prop :=
  fault w (trace w) (LookPath file) = None.

(** The platform commands of the program. *)
Definition cmd_push : event := CliCommand ["push"; "hackday-nc"; "--no-start"].
Definition cmd_set_env : event :=
  CliCommand ["set-env"; "hackday-nc"; "NODE_ENV"; "development"].
Definition cmd_start : event := CliCommand ["start"; "hackday-nc"].
Definition cs_redis : event :=
  CliCommand ["cs"; "rediscloud"; "30mb"; "hackday-rediscloud"].
Definition bs_redis : event :=
  CliCommand ["bs"; "hackday-nc"; "hackday-rediscloud"].
Definition cs_sql : event :=
  CliCommand ["cs"; "elephantsql"; "turtle"; "hackday-elephantsql"].
Definition bs_sql : event :=
  CliCommand ["bs"; "hackday-nc"; "hackday-elephantsql"].

Definition is_create (e : event) : bool :=
  match e with
  | CliCommand (a :: _) => a =? "cs"
  | _ => false
  end.

Definition is_bind (e : event) : bool :=
  match e with
  | CliCommand (a :: _) => a =? "bs"
  | _ => false
  end.

(** The service instance a create or bind request names: its last argument. *)
Definition instance_of (e : event) : option string :=
  match e with
  | CliCommand args => last args
  | _ => None
  end.

Definition mutations (tr : list event) : list event :=
  List.filter (fun e => is_create e || is_bind e) tr.

(** No bind request is followed later by a create request. *)
Fixpoint creates_first (tr : list event) : bool :=
  match tr with
  | [] => true
  | e :: tr' =>
      (negb (is_bind e) || negb (existsb is_create tr')) && creates_first tr'
  end.

(** No bind request is followed later by a create request for the same
    service instance. *)
Fixpoint own_create_first (tr : list event) : bool :=
  match tr with
  | [] => true
  | e :: tr' =>
      (negb (is_bind e)
       || negb (existsb (fun e' => is_create e' &&
                                   bool_decide (instance_of e' = instance_of e)) tr'))
      && own_create_first tr'
  end.

(** The requests the scan calls for, in the order of the code. *)
Definition needed (fl : flags) : list event :=
  (if redisFound fl then [] else [cs_redis]) ++
  (if redisBound fl then [] else [bs_redis]) ++
  (if sqlFound fl then [] else [cs_sql]) ++
  (if sqlBound fl then [] else [bs_sql]).

Definition is_app (app : string) : bool := app =? "hackday-nc".

Definition named (name : string) (s : Service) : bool := Name s =? name.

Definition bound (name : string) (s : Service) : bool :=
  named name s && existsb is_app (ApplicationNames s).

(** Some service called [name] lists [app] among its applications. *)
Definition bound_to (name app : string) (services : list Service) : Prop :=
  exists s, s ∈ services /\ Name s = name /\ app ∈ ApplicationNames s.

(** The child the passthrough branch starts for the arguments [tail]. *)
Definition passthrough (tail : list string) : Cmd :=
  mkCmd "treeline" ("treeline" :: tail) true true.

(** The exit status of a child whose [Wait] returned [err]: 0 for [nil], the
    status carried by an [ExitError]; other errors carry none. *)
Definition child_status (err : option error) : option Z :=
  match err with
  | None => Some 0
  | Some (ExitError status) => Some status
  | Some _ => None
  end.

Definition is_run (e : event) : bool :=
  match e with
  | CmdRun _ => true
  | _ => false
  end.

(** One round of the loop of [npmInstalls]: the install of [value] and,
    when it returned an error, the line printed for it. *)
Definition attempt (value : string) (outcome : option error) : list event :=
  CmdRun (npmSetup value) ::
  match outcome with
  | Some e => [Println [Str "Error installing npm packages"; Err e]]
  | None => []
  end.

(** Both writes of [writeDevelopmentConfig] succeed in a run of
    [treeline config-pws] from [w]. *)
Definition writes_succeed (w : World) : Prop :=
  fault w (trace w ++ [LookPath "treeline"])
    (WriteFile "config/env/development.js" developmentConfig 420) = None
  /\ fault w (trace w ++ [LookPath "treeline";
                          WriteFile "config/env/development.js" developmentConfig 420;
                          Println [Str "Updated config/env/development.js"]])
       (WriteFile "config/local.js" localConfig 420) = None.


(** The events of [writeDevelopmentConfig] when both writes succeed. *)
Definition writes_ok : list event :=
  [WriteFile "config/env/development.js" developmentConfig 420;
   Println [Str "Updated config/env/development.js"];
   WriteFile "config/local.js" localConfig 420;
   Println [Str "Updated config/local.js"]].

(** The files after both writes. *)
Definition written (m : gmap string node) : gmap string node :=
  <["config/local.js" := File localConfig]>
    (<["config/env/development.js" := File developmentConfig]> m).

(** *** Some worlds *)

(** An empty directory and an empty platform; every call succeeds. *)
Definition world_fresh : World := mkWorld ∅ [] (fun _ _ => None) [].

(** The delegated tool is not on the search path. *)
Definition world_no_tool : World :=
  mkWorld ∅ []
    (fun _ e =>
       match e with
       | LookPath _ => Some (ErrOther "executable file not found in $PATH")
       | _ => None
       end)
    [].

(** Nothing fails but the delegated tool, which exits with status 2. *)
Definition world_child_exits_2 : World :=
  mkWorld ∅ []
    (fun _ e => match e with CmdWait _ => Some (ExitError 2) | _ => None end)
    [].

(** Both services exist and are bound to the application. *)
Definition world_provisioned : World :=
  mkWorld ∅
    [mkService "hackday-elephantsql" ["other-app"; "hackday-nc"];
     mkService "unrelated" [];
     mkService "hackday-rediscloud" ["hackday-nc"]]
    (fun _ _ => None)
    [].

(** The platform refuses the push. *)
Definition world_push_refused : World :=
  mkWorld ∅ []
    (fun _ e =>
       match e with
       | CliCommand ("push" :: _) => Some (ErrOther "Error executing cli core command")
       | _ => None
       end)
    [].

(** Both configuration files exist with other contents, and every package
    install fails. *)
Definition world_installs_fail : World :=
  mkWorld
    (<["config/env/development.js" := File "module.exports = {};"]>
       (<["config/local.js" := File "// mine"]> ∅))
    []
    (fun _ e => match e with CmdRun _ => Some (ExitError 1) | _ => None end)
    [].


(** ** More of the program, and more vocabulary *)

(** The metadata the host reads: [plugin.PluginMetadata] and its parts.
    The fields [Name] of the metadata and of a command, and [Usage] of the
    usage, are [PluginName], [CommandName] and [UsageText] here. *)
Module plugin.

Record VersionType : Type := mkVersionType {
  Major : Z;
  Minor : Z;
  Build : Z
}.

Record Usage : Type := mkUsage {
  UsageText : string
}.

Record Command : Type := mkCommand {
  CommandName : string;
  HelpText : string;
  UsageDetails : Usage
}.

Record PluginMetadata : Type := mkPluginMetadata {
  PluginName : string;
  Version : VersionType;
  MinCliVersion : VersionType;
  Commands : list Command
}.

End plugin.

Definition GetMetadata : plugin.PluginMetadata :=
  plugin.mkPluginMetadata
    "TreelineCli"
    (plugin.mkVersionType 1 0 0)
    (plugin.mkVersionType 6 7 0)
    [plugin.mkCommand
       "treeline"
       "Basic plugin command's help text"
       (plugin.mkUsage "treeline
   cf treeline")].

(** The names of the commands the plugin registers with the host. *)
Definition registered : list string :=
  plugin.CommandName <$> plugin.Commands GetMetadata.

(** Classes of events. *)
Definition is_platform (e : event) : bool :=
  match e with
  | CliCommand _ | GetServices => true
  | _ => false
  end.

Definition is_process (e : event) : bool :=
  match e with
  | CmdRun _ | CmdStart _ | CmdWait _ => true
  | _ => false
  end.

Definition is_file (e : event) : bool :=
  match e with
  | WriteFile _ _ _ | Stat _ | Symlink _ _ => true
  | _ => false
  end.

Definition is_symlink (e : event) : bool :=
  match e with
  | Symlink _ _ => true
  | _ => false
  end.

Definition is_println (e : event) : bool :=
  match e with
  | Println _ => true
  | _ => false
  end.

(** The calls [calls], issued one after the other from the history [tr],
    all succeed. *)
Fixpoint succeed (w : World) (tr : list event) (calls : list event) : Prop :=
  match calls with
  | [] => True
  | c :: calls' => fault w tr c = None /\ succeed w (tr ++ [c]) calls'
  end.

(** The platform calls of a deploy, in the order of the code, for the flags
    [fl] of the scan. *)
Definition deploy_plan (fl : flags) : list event :=
  [cmd_push; cmd_set_env; GetServices] ++ needed fl ++ [cmd_start].

(** How a computation ended, and the events it added: by [os.Exit(0)] as
    the last event, by [os.Exit(1)] right after a printed line, by a normal
    return or by a panic. *)
Inductive ending : result unit -> list event -> Prop :=
| ending_return (evs : list event) : ending (Returned tt) evs
| ending_panic (evs : list event) : ending Panicked evs
| ending_exit_0 (pre : list event) : ending (Exited 0) (pre ++ [Exit 0])
| ending_exit_1 (pre : list event) (msg : list operand) :
    ending (Exited 1) (pre ++ [Println msg; Exit 1]).

(** The shapes of [writeDevelopmentConfig]. *)
Inductive write_shape : result unit -> list event -> Prop :=
| write_first_fails (e : error) :
    write_shape (Exited 1)
      [WriteFile "config/env/development.js" developmentConfig 420;
       Println [Str "Error writing configuration"; Err e]; Exit 1]
| write_second_fails (e : error) :
    write_shape (Exited 1)
      [WriteFile "config/env/development.js" developmentConfig 420;
       Println [Str "Updated config/env/development.js"];
       WriteFile "config/local.js" localConfig 420;
       Println [Str "Error writing configuration"; Err e]; Exit 1]
| write_both : write_shape (Returned tt) writes_ok.

(** The shapes of a run of [treeline config-pws] once the tool is found. *)
Inductive config_shape : result unit -> list event -> Prop :=
| config_write_fails (evs : list event) :
    write_shape (Exited 1) evs ->
    config_shape (Exited 1) (LookPath "treeline" :: evs)
| config_link_fails (e : error) :
    config_shape (Exited 1)
      (LookPath "treeline" :: writes_ok ++
       [Stat ".cfignore"; Symlink ".gitignore" ".cfignore";
        Println [Str "Could not link .cfignore to .gitignore"; Err e]; Exit 1])
| config_done (linked : bool) (o1 o2 o3 : option error) :
    config_shape (Exited 0)
      (LookPath "treeline" :: writes_ok ++
       Stat ".cfignore" ::
       (if linked then [Symlink ".gitignore" ".cfignore"] else []) ++
       attempt "connect-redis@1.4.5" o1 ++
       attempt "sails-postgresql" o2 ++
       attempt "socket.io-redis" o3 ++ [Exit 0]).

(** Events a deploy may add: no file is read or written, no process is
    started. *)
Definition deploy_event (e : event) : bool := negb (is_file e || is_process e).

(** Events the passthrough may add: no file, no platform call. *)
Definition passthrough_event (e : event) : bool :=
  negb (is_file e || is_platform e).


(** The ways [Run] goes for a command line, with the result and the events
    of each. *)
Inductive dispatched (w : World) : list string -> result unit -> list event -> Prop :=
| dispatched_empty : dispatched w [] Panicked []
| dispatched_other (a0 : string) (rest : list string) :
    a0 ≠ "treeline" ->
    dispatched w (a0 :: rest) (Returned tt) []
| dispatched_no_tool (rest : list string) :
    ~ resolvable w "treeline" ->
    dispatched w ("treeline" :: rest) (Exited 1)
      [LookPath "treeline";
       Println [Str "Please install treeline using 'npm install -g treeline'"];
       Exit 1]
| dispatched_bare :
    resolvable w "treeline" ->
    dispatched w ["treeline"] Panicked [LookPath "treeline"]
| dispatched_config (rest : list string) (r : result unit) (evs : list event) :
    resolvable w "treeline" ->
    config_shape r evs ->
    dispatched w ("treeline" :: "config-pws" :: rest) r evs
| dispatched_deploy (rest : list string) (r : result unit) (evs : list event) :
    resolvable w "treeline" ->
    r = Exited 0 \/ r = Exited 1 ->
    ending r evs ->
    forallb deploy_event evs = true ->
    head evs = Some (LookPath "treeline") ->
    dispatched w ("treeline" :: "deploy" :: rest) r evs
| dispatched_passthrough (a1 : string) (rest : list string)
    (r : result unit) (evs : list event) :
    resolvable w "treeline" ->
    a1 ≠ "config-pws" -> a1 ≠ "deploy" ->
    r = Returned tt \/ r = Exited 1 ->
    ending r evs ->
    forallb passthrough_event evs = true ->
    head evs = Some (LookPath "treeline") ->
    dispatched w ("treeline" :: a1 :: rest) r evs.


(** The history of a run of [treeline config-pws] when [os.Stat] is
    called: the lookup and the two writes, done. *)
Definition before_stat (w : World) : list event :=
  trace w ++ LookPath "treeline" :: writes_ok.

(** The environment refuses [os.Stat]. *)
Definition world_stat_denied : World :=
  mkWorld ∅ []
    (fun _ e =>
       match e with
       | Stat _ => Some (ErrOther "permission denied")
       | _ => None
       end)
    [].

(** The project has a [.cfignore] of its own. *)
Definition world_with_cfignore : World :=
  mkWorld (<[".cfignore" := File "node_modules"]> ∅) [] (fun _ _ => None) [].

(** The environment refuses [os.Symlink]. *)
Definition world_link_refused : World :=
  mkWorld ∅ []
    (fun _ e =>
       match e with
       | Symlink _ _ => Some (ErrOther "operation not permitted")
       | _ => None
       end)
    [].




(** [config/local.js] is a link to [config/env/development.js]. *)
Definition world_aliased : World :=
  mkWorld
    (<["config/local.js" := Link "config/env/development.js"]>
       (<["config/env/development.js" := File "module.exports = {};"]> ∅))
    [] (fun _ _ => None) [].



(** ** Symbolic execution *)

Ltac flatten :=
  unfold extend, record, set_fs, set_Stdout, set_Stdin, exec_Command; cbn;
  rewrite <- ?app_assoc; cbn.

Ltac exec :=
  unfold Run, createServices, bind, index, slice_from, when, if_err, ret,
    os_Exit, fmt_Println, exec_LookPath, call,
    Cmd_Start, Cmd_Wait, Cmd_Run, CliConnection_CliCommand,
    CliConnection_GetServices;
  flatten.

Ltac use H := rewrite H; flatten.

Ltac split_faults :=
  repeat match goal with
    | |- context [match fault ?w ?t ?e with _ => _ end] =>
        destruct (fault w t e) eqn:?; flatten
    end.

Ltac close_order :=
  rewrite drop_app_length; cbn;
  first [ done | apply prefix_nil | by eexists ].

Arguments writeDevelopmentConfig : simpl never.
Arguments npmInstalls : simpl never.
Arguments attempt : simpl never.
Arguments ioutil_WriteFile : simpl never.
Arguments os_Stat : simpl never.
Arguments os_Symlink : simpl never.

(** ** The monad laws, pointwise *)

Lemma bind_ret_l {A B : Type} (a : A) (k : A -> M B) (w : World) :
  bind (ret a) k w = k a w.
Proof. reflexivity. Qed.

Lemma bind_ret_r {A : Type} (m : M A) (w : World) : bind m ret w = m w.
Proof. unfold bind, ret. by destruct (m w) as [[] ?]. Qed.

Lemma bind_assoc {A B C : Type} (m : M A) (f : A -> M B) (g : B -> M C) (w : World) :
  bind (bind m f) g w = bind m (fun a => bind (f a) g) w.
Proof. unfold bind. by destruct (m w) as [[] ?]. Qed.

(** ** Histories *)

Lemma steps_trans (w1 w2 w3 : World) (evs1 evs2 : list event) :
  steps w1 evs1 w2 -> steps w2 evs2 w3 -> steps w1 (evs1 ++ evs2) w3.
Proof.
  intros (Hf1 & Hp1 & Ht1) (Hf2 & Hp2 & Ht2). unfold steps.
  rewrite Hf2, Hp2, Ht2, Hf1, Hp1, Ht1. by rewrite app_assoc.
Qed.

Lemma steps_record (w : World) (e : event) : steps w [e] (record e w).
Proof. done. Qed.

Lemma steps_extend (w : World) (evs : list event) : steps w evs (extend w evs).
Proof. done. Qed.

(** ** The scan of [createServices] *)

Lemma scan_apps_spec (apps : list string) (b : bool) :
  scan_apps apps b = b || existsb is_app apps.
Proof.
  unfold scan_apps. revert b.
  induction apps as [|a apps IH]; intros b; cbn.
  - by rewrite orb_false_r.
  - rewrite IH. unfold is_app. destruct (a =? "hackday-nc"), b; reflexivity.
Qed.

Lemma fold_scan_spec (services : list Service) (fl : flags) :
  fold_left scan_service services fl =
    mkFlags (redisFound fl || existsb (named "hackday-rediscloud") services)
            (redisBound fl || existsb (bound "hackday-rediscloud") services)
            (sqlFound fl || existsb (named "hackday-elephantsql") services)
            (sqlBound fl || existsb (bound "hackday-elephantsql") services).
Proof.
  revert fl. induction services as [|s services IH]; intros fl.
  - destruct fl; cbn. by rewrite !orb_false_r.
  - cbn [fold_left existsb]. rewrite IH. unfold scan_service, bound, named.
    rewrite !scan_apps_spec.
    destruct (Name s =? "hackday-rediscloud"), (Name s =? "hackday-elephantsql");
      cbn [redisFound redisBound sqlFound sqlBound andb orb];
      rewrite ?orb_true_r, ?orb_false_r, ?orb_assoc; reflexivity.
Qed.

(** Each flag of the scan says whether some service of the list has the
    name, respectively has the name and lists the application. *)
Lemma scan_spec (services : list Service) :
  scan services =
    mkFlags (existsb (named "hackday-rediscloud") services)
            (existsb (bound "hackday-rediscloud") services)
            (existsb (named "hackday-elephantsql") services)
            (existsb (bound "hackday-elephantsql") services).
Proof. unfold scan. by rewrite fold_scan_spec. Qed.

Lemma existsb_elem {A : Type} (f : A -> bool) (l : list A) (x : A) :
  x ∈ l -> f x = true -> existsb f l = true.
Proof.
  intros Hin Hf. apply existsb_exists. exists x. split; [|done].
  by apply list_elem_of_In.
Qed.

Lemma bound_to_bound (name : string) (services : list Service) :
  bound_to name "hackday-nc" services ->
  existsb (named name) services = true /\ existsb (bound name) services = true.
Proof.
  intros (s & Hs & Hname & Happ).
  assert (named name s = true) as Hn by (by apply String.eqb_eq).
  split; [by eapply existsb_elem|].
  eapply existsb_elem; [done|]. unfold bound. rewrite Hn. cbn.
  eapply existsb_elem; [done|]. by apply String.eqb_eq.
Qed.

(** A bound service is a found service: the scan never asks for a create
    without the bind. *)
Lemma scan_bound_found (services : list Service) :
  (redisBound (scan services) = true -> redisFound (scan services) = true)
  /\ (sqlBound (scan services) = true -> sqlFound (scan services) = true).
Proof.
  rewrite scan_spec. cbn. unfold bound.
  split; intros (s & Hin & [Hn _]%andb_prop)%existsb_exists;
    apply existsb_exists; by exists s.
Qed.

(** ** Files *)

Lemma resolve_file (n : nat) (m : gmap string node) (name data : string) :
  m !! name = Some (File data) -> resolve n m name = AtFile name data.
Proof. intros H. destruct n; cbn; by rewrite H. Qed.

Lemma resolve_missing (n : nat) (m : gmap string node) (name : string) :
  m !! name = None -> resolve n m name = Missing name.
Proof. intros H. destruct n; cbn; by rewrite H. Qed.


Lemma contents_file (m : gmap string node) (name data : string) :
  m !! name = Some (File data) -> contents m name = Some data.
Proof. intros H. unfold contents. by rewrite (resolve_file _ _ _ _ H). Qed.

Arguments resolve : simpl never.

Lemma ioutil_WriteFile_steps (filename data : string) (perm : Z) (w : World) :
  exists err w',
    ioutil_WriteFile filename data perm w = (Returned err, w')
    /\ steps w [WriteFile filename data perm] w'.
Proof.
  unfold ioutil_WriteFile.
  destruct (fault w (trace w) _); [by eexists _, _|].
  destruct (resolve _ _ _); by eexists _, _.
Qed.

(** On a name that is a regular file or has no entry, a write that the
    environment lets through replaces the contents. *)
Lemma ioutil_WriteFile_regular (w : World) (filename data : string) (perm : Z)
    (old : option string) :
  fs w !! filename = File <$> old ->
  ioutil_WriteFile filename data perm w =
    match fault w (trace w) (WriteFile filename data perm) with
    | Some e => (Returned (Some e), record (WriteFile filename data perm) w)
    | None =>
        (Returned None,
         record (WriteFile filename data perm)
           (set_fs (<[filename := File data]> (fs w)) w))
    end.
Proof.
  intros Hold. unfold ioutil_WriteFile. cbn zeta.
  destruct (fault w (trace w) _); [done|].
  destruct old as [d|]; cbn in Hold.
  - by rewrite (resolve_file _ _ _ _ Hold).
  - by rewrite (resolve_missing _ _ _ Hold).
Qed.

Lemma os_Stat_steps (name : string) (w : World) :
  exists err, os_Stat name w = (Returned err, record (Stat name) w).
Proof. by eexists. Qed.

Lemma os_Symlink_steps (oldname newname : string) (w : World) :
  exists err w',
    os_Symlink oldname newname w = (Returned err, w')
    /\ steps w [Symlink oldname newname] w'
    /\ (fs w' = fs w
        \/ fs w !! newname = None /\ fs w' = <[newname := Link oldname]> (fs w)).
Proof.
  unfold os_Symlink. cbn zeta.
  destruct (fault w (trace w) _).
  { eexists _, _. split; [done|]. split; [done|]. by left. }
  destruct (fs w !! newname) eqn:E; eexists _, _; (split; [done|]); (split; [done|]).
  - by left.
  - by right.
Qed.

(** [writeDevelopmentConfig] returns or exits with 1, and starts no
    process on the way. *)
Lemma writeDevelopmentConfig_steps (w : World) :
  exists r w' evs,
    writeDevelopmentConfig w = (r, w')
    /\ steps w evs w'
    /\ existsb is_run evs = false
    /\ (r = Returned tt \/ r = Exited 1).
Proof.
  unfold writeDevelopmentConfig, bind.
  destruct (ioutil_WriteFile_steps "config/env/development.js" developmentConfig 420 w)
    as (err1 & w1 & -> & H1).
  destruct err1 as [e1|]; cbn [if_err].
  { eexists _, _, _. split; [reflexivity|].
    split; [|split; [|by right]].
    - eapply steps_trans; [exact H1|]. cbn.
      eapply (steps_trans _ _ _ [_] [_]); apply steps_record.
    - reflexivity. }
  cbn [ret fmt_Println].
  destruct (ioutil_WriteFile_steps "config/local.js" localConfig 420
              (record (Println [Str "Updated config/env/development.js"]) w1))
    as (err2 & w2 & -> & H2).
  assert (steps w [WriteFile "config/env/development.js" developmentConfig 420;
                   Println [Str "Updated config/env/development.js"];
                   WriteFile "config/local.js" localConfig 420] w2) as H12.
  { eapply (steps_trans _ _ _ [_] [_; _]); [exact H1|].
    eapply (steps_trans _ _ _ [_] [_]); [apply steps_record|exact H2]. }
  destruct err2 as [e2|]; cbn [if_err ret].
  - eexists _, _, _. split; [reflexivity|].
    split; [|split; [|by right]].
    + eapply steps_trans; [exact H12|].
      eapply (steps_trans _ _ _ [_] [_]); apply steps_record.
    + reflexivity.
  - eexists _, _, _. split; [reflexivity|].
    split; [|split; [|by left]].
    + eapply steps_trans; [exact H12|]. apply steps_record.
    + reflexivity.
Qed.

(** [npmInstalls] runs the three installs in order whatever each returns,
    prints a line after each one that failed, and returns. *)
Lemma npmInstalls_spec (w : World) :
  let o1 := fault w (trace w) (CmdRun (npmSetup "connect-redis@1.4.5")) in
  let o2 := fault w (trace w ++ attempt "connect-redis@1.4.5" o1)
              (CmdRun (npmSetup "sails-postgresql")) in
  let o3 := fault w (trace w ++ attempt "connect-redis@1.4.5" o1
                             ++ attempt "sails-postgresql" o2)
              (CmdRun (npmSetup "socket.io-redis")) in
  npmInstalls w =
    (Returned tt,
     extend w (attempt "connect-redis@1.4.5" o1 ++
               attempt "sails-postgresql" o2 ++
               attempt "socket.io-redis" o3)).
Proof.
  cbn zeta. unfold npmInstalls, packages, for_range, attempt, npmSetup. exec.
  destruct (fault w (trace w) _); flatten;
    destruct (fault w _ _); flatten;
    destruct (fault w _ _); by flatten.
Qed.

(** ** The dispatcher *)

(** C9.  A command line whose first word is not [treeline] has no effect at
    all: [Run] returns normally (it does not call [os.Exit]) and leaves the
    world as it found it, history included: no file written, no process
    started, no platform call. *)
Theorem other_command_no_effect (w : World) (a0 : string) (rest : list string) :
  a0 ≠ "treeline" ->
  Run (a0 :: rest) w = (Returned tt, w).
Proof.
  intros Hne. apply String.eqb_neq in Hne.
  exec. by use Hne.
Qed.

Lemma other_command_no_effect_witness :
  "apps" ≠ "treeline"
  /\ Run ["apps"; "config-pws"] world_fresh = (Returned tt, world_fresh).
Proof.
  assert ("apps" ≠ "treeline") as Hne by discriminate.
  exact (conj Hne (other_command_no_effect world_fresh "apps" ["config-pws"] Hne)).
Defined.

(** C2.  When the command is [treeline] and the delegated tool is not on the
    search path, then whatever follows on the command line ([config-pws],
    [deploy], anything else, or nothing) the run consists of the lookup, the
    line with the installation instruction and [os.Exit(1)], in this order,
    and of nothing else: files and platform are untouched. *)
Theorem missing_tool_exits_first (w : World) (rest : list string) :
  ~ resolvable w "treeline" ->
  Run ("treeline" :: rest) w =
    (Exited 1,
     extend w [LookPath "treeline";
               Println [Str "Please install treeline using 'npm install -g treeline'"];
               Exit 1]).
Proof.
  unfold resolvable. intros H. exec.
  destruct (fault w (trace w) (LookPath "treeline")) eqn:E; [|done].
  by flatten.
Qed.

Lemma missing_tool_exits_first_witness :
  ~ resolvable world_no_tool "treeline"
  /\ Run ["treeline"; "deploy"] world_no_tool =
       (Exited 1,
        extend world_no_tool
          [LookPath "treeline";
           Println [Str "Please install treeline using 'npm install -g treeline'"];
           Exit 1]).
Proof.
  assert (~ resolvable world_no_tool "treeline") as H by (vm_compute; discriminate).
  exact (conj H (missing_tool_exits_first world_no_tool ["deploy"] H)).
Defined.

(** C10.  With the tool on the search path and a command line that is just
    [treeline], [Run] reads [args[1]] with no check of the length: the index
    is out of range, and the run panics right after the lookup, having
    printed nothing and without calling [os.Exit]. *)
Theorem no_subcommand_panics (w : World) :
  resolvable w "treeline" ->
  (forall w' : World, index ["treeline"] 1 w' = (Panicked, w'))
  /\ Run ["treeline"] w = (Panicked, extend w [LookPath "treeline"]).
Proof.
  unfold resolvable. intros H. split; [done|]. exec. by use H.
Qed.

Lemma no_subcommand_panics_witness :
  resolvable world_fresh "treeline"
  /\ (forall w' : World, index ["treeline"] 1 w' = (Panicked, w'))
  /\ Run ["treeline"] world_fresh = (Panicked, extend world_fresh [LookPath "treeline"]).
Proof.
  assert (resolvable world_fresh "treeline") as H by reflexivity.
  exact (conj H (no_subcommand_panics world_fresh H)).
Defined.

(** C5.  In a run of [treeline deploy] whose push fails with [e], the run is
    the lookup of the tool, the push, the line printing [e] and [os.Exit(1)]:
    no set-env, no listing of services, no create or bind, no start. *)
Theorem deploy_push_fails_stops (w : World) (rest : list string) (e : error) :
  resolvable w "treeline" ->
  fault w (trace w ++ [LookPath "treeline"]) cmd_push = Some e ->
  Run ("treeline" :: "deploy" :: rest) w =
    (Exited 1,
     extend w [LookPath "treeline"; cmd_push; Println [Err e]; Exit 1]).
Proof.
  unfold resolvable, cmd_push. intros H Hpush. exec. use H. by use Hpush.
Qed.

Lemma deploy_push_fails_stops_witness :
  resolvable world_push_refused "treeline"
  /\ fault world_push_refused (trace world_push_refused ++ [LookPath "treeline"])
       cmd_push = Some (ErrOther "Error executing cli core command")
  /\ Run ["treeline"; "deploy"] world_push_refused =
       (Exited 1,
        extend world_push_refused
          [LookPath "treeline"; cmd_push;
           Println [Err (ErrOther "Error executing cli core command")]; Exit 1]).
Proof.
  assert (resolvable world_push_refused "treeline") as H1 by reflexivity.
  assert (fault world_push_refused (trace world_push_refused ++ [LookPath "treeline"])
            cmd_push = Some (ErrOther "Error executing cli core command")) as H2
    by reflexivity.
  exact (conj H1 (conj H2 (deploy_push_fails_stops world_push_refused [] _ H1 H2))).
Defined.

(** C3, as the code has it.  With the tool on the search path and a first
    argument other than [config-pws] and [deploy], the child is started with
    exactly the arguments after the command name, in order, and with the
    standard input and output of the plugin.  The run returns normally (the
    host then exits with 0) when the child starts and [Wait] returns no
    error; it prints the error and exits with 1 when the start fails or
    [Wait] returns an error, whatever status the child exited with. *)
Theorem passthrough_forwards_tail (w : World) (a1 : string) (rest : list string) :
  a1 ≠ "config-pws" -> a1 ≠ "deploy" ->
  resolvable w "treeline" ->
  let c := passthrough (a1 :: rest) in
  let started := fault w (trace w ++ [LookPath "treeline"]) (CmdStart c) in
  let waited := fault w (trace w ++ [LookPath "treeline"; CmdStart c]) (CmdWait c) in
  Run ("treeline" :: a1 :: rest) w =
    match started, waited with
    | Some e, _ =>
        (Exited 1,
         extend w [LookPath "treeline"; CmdStart c;
                   Println [Str "Error starting command"; Err e]; Exit 1])
    | None, Some e =>
        (Exited 1,
         extend w [LookPath "treeline"; CmdStart c; CmdWait c;
                   Println [Str "Error running command"; Err e]; Exit 1])
    | None, None =>
        (Returned tt, extend w [LookPath "treeline"; CmdStart c; CmdWait c])
    end
  /\ exit_status (Run ("treeline" :: a1 :: rest) w).1 =
       match started, waited with
       | None, None => 0
       | _, _ => 1
       end.
Proof.
  intros Hc%String.eqb_neq Hd%String.eqb_neq Hl. unfold resolvable in Hl.
  cbn zeta. unfold passthrough.
  split; exec; use Hl; use Hc; use Hd; by split_faults.
Qed.

Lemma passthrough_forwards_tail_witness :
  let c := passthrough ["generate"; "api"] in
  "generate" ≠ "config-pws" /\ "generate" ≠ "deploy"
  /\ resolvable world_child_exits_2 "treeline"
  /\ Run ["treeline"; "generate"; "api"] world_child_exits_2 =
       (Exited 1,
        extend world_child_exits_2
          [LookPath "treeline"; CmdStart c; CmdWait c;
           Println [Str "Error running command"; Err (ExitError 2)]; Exit 1])
  /\ exit_status (Run ["treeline"; "generate"; "api"] world_child_exits_2).1 = 1.
Proof.
  assert ("generate" ≠ "config-pws") as H1 by discriminate.
  assert ("generate" ≠ "deploy") as H2 by discriminate.
  assert (resolvable world_child_exits_2 "treeline") as H3 by reflexivity.
  exact (conj H1 (conj H2 (conj H3
    (passthrough_forwards_tail world_child_exits_2 "generate" ["api"] H1 H2 H3)))).
Defined.

(** C3, as stated, fails: a child that exits with status 2 makes the plugin
    exit with status 1. *)
Lemma passthrough_status_not_mirrored :
  let w := world_child_exits_2 in
  let c := passthrough ["generate"; "api"] in
  let r := Run ["treeline"; "generate"; "api"] w in
  emitted (Run ["treeline"; "generate"; "api"]) w =
    [LookPath "treeline"; CmdStart c; CmdWait c;
     Println [Str "Error running command"; Err (ExitError 2)]; Exit 1]
  /\ child_status (fault w [LookPath "treeline"; CmdStart c] (CmdWait c)) = Some 2
  /\ exit_status r.1 = 1
  /\ Some (exit_status r.1)
       <> child_status (fault w [LookPath "treeline"; CmdStart c] (CmdWait c)).
Proof. vm_compute. repeat split; congruence. Qed.

(** ** The service provisioner *)

(** C1.  On a platform where some service named [hackday-rediscloud] and
    some service named [hackday-elephantsql] both list [hackday-nc] among
    their applications, [createServices] calls the platform once, to list
    the services, and issues no create and no bind (when the listing itself
    fails it prints the error and exits with 1).  Around it, a deploy whose
    push, set-env and listing succeed issues push, set-env, the listing and
    start, in this order, and nothing else on the platform. *)
Theorem deploy_already_provisioned (w : World) :
  bound_to "hackday-rediscloud" "hackday-nc" (platform w) ->
  bound_to "hackday-elephantsql" "hackday-nc" (platform w) ->
  createServices w =
    match fault w (trace w) GetServices with
    | None => (Returned tt, extend w [GetServices])
    | Some e => (Exited 1, extend w [GetServices; Println [Err e]; Exit 1])
    end
  /\ (resolvable w "treeline" ->
      fault w (trace w ++ [LookPath "treeline"]) cmd_push = None ->
      fault w (trace w ++ [LookPath "treeline"; cmd_push]) cmd_set_env = None ->
      fault w (trace w ++ [LookPath "treeline"; cmd_push; cmd_set_env]) GetServices = None ->
      forall rest : list string,
        Run ("treeline" :: "deploy" :: rest) w =
          match fault w (trace w ++ [LookPath "treeline"; cmd_push; cmd_set_env; GetServices])
                  cmd_start with
          | None =>
              (Exited 0,
               extend w [LookPath "treeline"; cmd_push; cmd_set_env; GetServices;
                         cmd_start; Exit 0])
          | Some e =>
              (Exited 1,
               extend w [LookPath "treeline"; cmd_push; cmd_set_env; GetServices;
                         cmd_start; Println [Err e]; Exit 1])
          end).
Proof.
  intros [Hrf Hrb]%bound_to_bound [Hsf Hsb]%bound_to_bound.
  split.
  - exec. split_faults; [done|].
    rewrite scan_spec, Hrf, Hrb, Hsf, Hsb. by flatten.
  - unfold resolvable, cmd_push, cmd_set_env, cmd_start.
    intros Hl Hp He Hg rest. exec.
    use Hl. use Hp. use He. use Hg.
    rewrite scan_spec, Hrf, Hrb, Hsf, Hsb. flatten.
    by split_faults.
Qed.

Lemma deploy_already_provisioned_witness :
  bound_to "hackday-rediscloud" "hackday-nc" (platform world_provisioned)
  /\ bound_to "hackday-elephantsql" "hackday-nc" (platform world_provisioned)
  /\ createServices world_provisioned =
       (Returned tt, extend world_provisioned [GetServices])
  /\ Run ["treeline"; "deploy"] world_provisioned =
       (Exited 0,
        extend world_provisioned
          [LookPath "treeline"; cmd_push; cmd_set_env; GetServices; cmd_start; Exit 0]).
Proof.
  assert (bound_to "hackday-rediscloud" "hackday-nc" (platform world_provisioned))
    as Hr.
  { exists (mkService "hackday-rediscloud" ["hackday-nc"]).
    split; [do 2 apply list_elem_of_further; apply list_elem_of_here|].
    split; [reflexivity|apply list_elem_of_here]. }
  assert (bound_to "hackday-elephantsql" "hackday-nc" (platform world_provisioned))
    as Hs.
  { exists (mkService "hackday-elephantsql" ["other-app"; "hackday-nc"]).
    split; [apply list_elem_of_here|].
    split; [reflexivity|apply list_elem_of_further, list_elem_of_here]. }
  destruct (deploy_already_provisioned world_provisioned Hr Hs) as [Hc Hd].
  split; [exact Hr|]. split; [exact Hs|]. split; [exact Hc|].
  exact (Hd eq_refl eq_refl eq_refl eq_refl []).
Defined.

(** C4, as the code has it.  [createServices] goes service by service: the
    create and bind requests it issues are, in this order, the create of the
    cache service when not found, its bind when not bound, the create of the
    database service when not found, its bind when not bound; a request that
    fails ends the sequence there.  So no bind request is followed later by
    a create request for the same service; when both services are missing
    the bind of the cache service comes before the create of the database
    service. *)
Theorem createServices_order (w : World) :
  mutations (emitted createServices w) `prefix_of` needed (scan (platform w))
  /\ own_create_first (emitted createServices w) = true
  /\ ((forall tr e, fault w tr e = None) ->
      mutations (emitted createServices w) = needed (scan (platform w))).
Proof.
  unfold emitted.
  split; [|split].
  - exec. split_faults; [close_order|].
    destruct (scan (platform w)) as [[] [] [] []]; flatten; split_faults;
      close_order.
  - exec. split_faults; [close_order|].
    destruct (scan (platform w)) as [[] [] [] []]; flatten; split_faults;
      close_order.
  - intros Hok. exec. rewrite !Hok. flatten.
    destruct (scan (platform w)) as [[] [] [] []]; flatten;
      rewrite ?Hok; flatten; rewrite ?Hok; flatten; rewrite ?Hok; flatten;
      rewrite ?Hok; flatten; close_order.
Qed.

Lemma createServices_order_witness :
  (forall tr e, fault world_fresh tr e = None)
  /\ mutations (emitted createServices world_fresh) =
       [cs_redis; bs_redis; cs_sql; bs_sql]
  /\ own_create_first (emitted createServices world_fresh) = true.
Proof.
  assert (forall tr e, fault world_fresh tr e = None) as Hok by reflexivity.
  destruct (createServices_order world_fresh) as (_ & Hown & Hall).
  exact (conj Hok (conj (Hall Hok) Hown)).
Defined.

(** C4, as stated, fails: on an empty platform the bind of the cache
    service is followed by the create of the database service. *)
Lemma createServices_bind_then_create :
  emitted createServices world_fresh =
    [GetServices; cs_redis; bs_redis; cs_sql; bs_sql]
  /\ creates_first (emitted createServices world_fresh) = false.
Proof. split; reflexivity. Qed.

(** ** Configuration *)

(** C6.  Take a run of [treeline config-pws] with the tool on the search
    path, from a directory where each of the two configuration files is a
    regular file with any contents, or is absent.  If the run exits with 0,
    or just if its two writes succeed, then afterwards
    [config/env/development.js] reads as the first literal, byte for byte,
    and [config/local.js] as the second. *)
Theorem config_pws_writes_templates (w : World) (rest : list string)
    (old_dev old_local : option string) :
  resolvable w "treeline" ->
  fs w !! "config/env/development.js" = File <$> old_dev ->
  fs w !! "config/local.js" = File <$> old_local ->
  let r := Run ("treeline" :: "config-pws" :: rest) w in
  r.1 = Exited 0 \/ writes_succeed w ->
  contents (fs r.2) "config/env/development.js" = Some developmentConfig
  /\ contents (fs r.2) "config/local.js" = Some localConfig.
Proof.
  unfold resolvable, writes_succeed. intros Hl Hdev Hloc. cbn zeta.
  exec. use Hl.
  unfold writeDevelopmentConfig, bind.
  rewrite (ioutil_WriteFile_regular _ "config/env/development.js" _ _ old_dev)
    by exact Hdev.
  cbn [fault trace].
  destruct (fault w _ (WriteFile "config/env/development.js" _ _)) as [e1|] eqn:F1; cbn.
  { intros [?|[? _]]; congruence. }
  rewrite (ioutil_WriteFile_regular _ "config/local.js" _ _ old_local)
    by (cbn; by rewrite lookup_insert_ne).
  flatten.
  destruct (fault w _ (WriteFile "config/local.js" _ _)) as [e2|] eqn:F2; cbn.
  { intros [?|[_ ?]]; congruence. }
  intros _. unfold fmt_Println. flatten.
  match goal with
  | |- context [os_Stat ".cfignore" ?W] =>
      destruct (os_Stat_steps ".cfignore" W) as (err & ->)
  end.
  assert (forall m : gmap string node,
             m = <["config/local.js" := File localConfig]>
                   (<["config/env/development.js" := File developmentConfig]> (fs w))
             \/ m = <[".cfignore" := Link ".gitignore"]>
                      (<["config/local.js" := File localConfig]>
                         (<["config/env/development.js" := File developmentConfig]> (fs w))) ->
             contents m "config/env/development.js" = Some developmentConfig
             /\ contents m "config/local.js" = Some localConfig) as Hfinal.
  { intros m [-> | ->]; split; apply contents_file; by simplify_map_eq. }
  cbn.
  destruct (os_IsNotExist err).
  - match goal with
    | |- context [os_Symlink ".gitignore" ".cfignore" ?W] =>
        destruct (os_Symlink_steps ".gitignore" ".cfignore" W)
          as (err' & w2 & -> & _ & Hfs)
    end.
    cbn in Hfs.
    destruct err' as [e|]; cbn; [|rewrite npmInstalls_spec; cbn];
      apply Hfinal; destruct Hfs as [-> | [_ ->]]; auto.
  - rewrite npmInstalls_spec. cbn. apply Hfinal. by left.
Qed.

Lemma config_pws_writes_templates_witness :
  let r := Run ["treeline"; "config-pws"] world_installs_fail in
  resolvable world_installs_fail "treeline"
  /\ fs world_installs_fail !! "config/env/development.js"
       = Some (File "module.exports = {};")
  /\ fs world_installs_fail !! "config/local.js" = Some (File "// mine")
  /\ r.1 = Exited 0
  /\ contents (fs r.2) "config/env/development.js" = Some developmentConfig
  /\ contents (fs r.2) "config/local.js" = Some localConfig.
Proof.
  assert (resolvable world_installs_fail "treeline") as H1 by reflexivity.
  assert (fs world_installs_fail !! "config/env/development.js"
            = File <$> Some "module.exports = {};") as H2 by (vm_compute; reflexivity).
  assert (fs world_installs_fail !! "config/local.js" = File <$> Some "// mine")
    as H3 by (vm_compute; reflexivity).
  assert ((Run ["treeline"; "config-pws"] world_installs_fail).1 = Exited 0)
    as H4 by (vm_compute; reflexivity).
  exact (conj H1 (conj H2 (conj H3 (conj H4
    (config_pws_writes_templates world_installs_fail [] _ _ H1 H2 H3
       (or_introl H4)))))).
Defined.

(** C7.  In every run of [treeline config-pws] that gets as far as an
    install, the run ends with the installs of [connect-redis@1.4.5],
    [sails-postgresql] and [socket.io-redis], in this order, each followed
    by a printed line exactly when it returned an error, and then
    [os.Exit(0)]: whatever the three installs return, all three are run and
    the command exits with 0. *)
Theorem config_pws_installs_continue (w : World) (rest : list string) :
  existsb is_run (emitted (Run ("treeline" :: "config-pws" :: rest)) w) = true ->
  exists (w1 : World) (pre : list event),
    steps w pre w1
    /\ existsb is_run pre = false
    /\ let o1 := fault w1 (trace w1) (CmdRun (npmSetup "connect-redis@1.4.5")) in
       let o2 := fault w1 (trace w1 ++ attempt "connect-redis@1.4.5" o1)
                   (CmdRun (npmSetup "sails-postgresql")) in
       let o3 := fault w1 (trace w1 ++ attempt "connect-redis@1.4.5" o1
                                    ++ attempt "sails-postgresql" o2)
                   (CmdRun (npmSetup "socket.io-redis")) in
       Run ("treeline" :: "config-pws" :: rest) w =
         (Exited 0,
          extend w1 (attempt "connect-redis@1.4.5" o1 ++
                     attempt "sails-postgresql" o2 ++
                     attempt "socket.io-redis" o3 ++ [Exit 0])).
Proof.
  unfold emitted. exec.
  destruct (fault w (trace w) (LookPath "treeline")) eqn:Hl; flatten.
  { rewrite drop_app_length. discriminate. }
  destruct (writeDevelopmentConfig_steps (extend w [LookPath "treeline"]))
    as (r & w1 & evs & Hwd & Hs1 & Hq1 & Hr).
  unfold extend in Hwd. rewrite Hwd.
  assert (steps w (LookPath "treeline" :: evs) w1) as Hs1'.
  { apply (steps_trans _ _ _ [_] _ (steps_extend w _) Hs1). }
  destruct Hr as [-> | ->]; cbn.
  2: { destruct Hs1' as (_ & _ & ->). rewrite drop_app_length. cbn.
       rewrite Hq1. discriminate. }
  destruct (os_Stat_steps ".cfignore" w1) as (err & ->).
  assert (steps w (LookPath "treeline" :: evs ++ [Stat ".cfignore"])
            (record (Stat ".cfignore") w1)) as Hs2.
  { apply (steps_trans _ _ _ (_ :: _) [_] Hs1'), steps_record. }
  assert (existsb is_run (LookPath "treeline" :: evs ++ [Stat ".cfignore"]) = false)
    as Hq2.
  { cbn. rewrite existsb_app, Hq1. reflexivity. }
  destruct (os_IsNotExist err).
  - destruct (os_Symlink_steps ".gitignore" ".cfignore" (record (Stat ".cfignore") w1))
      as (err' & w2 & -> & Hs3 & _).
    pose proof (steps_trans _ _ _ _ _ Hs2 Hs3) as Hs4.
    assert (existsb is_run
              ((LookPath "treeline" :: evs ++ [Stat ".cfignore"])
                 ++ [Symlink ".gitignore" ".cfignore"]) = false) as Hq4.
    { rewrite existsb_app, Hq2. reflexivity. }
    destruct err' as [e|]; cbn.
    + revert Hs4 Hq4.
      generalize ((LookPath "treeline" :: evs ++ [Stat ".cfignore"])
                    ++ [Symlink ".gitignore" ".cfignore"]).
      intros pre (_ & _ & ->) Hq4.
      rewrite <- !app_assoc, drop_app_length, existsb_app, Hq4. discriminate.
    + rewrite npmInstalls_spec. cbn. intros _.
      exists w2, ((LookPath "treeline" :: evs ++ [Stat ".cfignore"])
                    ++ [Symlink ".gitignore" ".cfignore"]).
      split; [exact Hs4|]. split; [exact Hq4|].
      unfold extend; cbn. by rewrite <- !app_assoc.
  - cbn. rewrite npmInstalls_spec. cbn. intros _.
    exists (record (Stat ".cfignore") w1), (LookPath "treeline" :: evs ++ [Stat ".cfignore"]).
    split; [exact Hs2|]. split; [exact Hq2|].
    unfold extend; cbn. by rewrite <- !app_assoc.
Qed.

Lemma config_pws_installs_continue_witness :
  existsb is_run (emitted (Run ["treeline"; "config-pws"]) world_installs_fail) = true
  /\ exists (w1 : World) (pre : list event),
       steps world_installs_fail pre w1
       /\ existsb is_run pre = false
       /\ let o1 := fault w1 (trace w1) (CmdRun (npmSetup "connect-redis@1.4.5")) in
          let o2 := fault w1 (trace w1 ++ attempt "connect-redis@1.4.5" o1)
                      (CmdRun (npmSetup "sails-postgresql")) in
          let o3 := fault w1 (trace w1 ++ attempt "connect-redis@1.4.5" o1
                                       ++ attempt "sails-postgresql" o2)
                      (CmdRun (npmSetup "socket.io-redis")) in
          Run ["treeline"; "config-pws"] world_installs_fail =
            (Exited 0,
             extend w1 (attempt "connect-redis@1.4.5" o1 ++
                        attempt "sails-postgresql" o2 ++
                        attempt "socket.io-redis" o3 ++ [Exit 0])).
Proof.
  assert (existsb is_run
            (emitted (Run ["treeline"; "config-pws"]) world_installs_fail) = true)
    as H by (vm_compute; reflexivity).
  exact (conj H (config_pws_installs_continue world_installs_fail [] H)).
Defined.

(** A run of [treeline config-pws] spelled out, where every install fails. *)
Example config_pws_all_installs_fail :
  let r := Run ["treeline"; "config-pws"] world_installs_fail in
  r.1 = Exited 0
  /\ emitted (Run ["treeline"; "config-pws"]) world_installs_fail =
       [LookPath "treeline";
        WriteFile "config/env/development.js" developmentConfig 420;
        Println [Str "Updated config/env/development.js"];
        WriteFile "config/local.js" localConfig 420;
        Println [Str "Updated config/local.js"];
        Stat ".cfignore";
        Symlink ".gitignore" ".cfignore";
        CmdRun (npmSetup "connect-redis@1.4.5");
        Println [Str "Error installing npm packages"; Err (ExitError 1)];
        CmdRun (npmSetup "sails-postgresql");
        Println [Str "Error installing npm packages"; Err (ExitError 1)];
        CmdRun (npmSetup "socket.io-redis");
        Println [Str "Error installing npm packages"; Err (ExitError 1)];
        Exit 0].
Proof. split; vm_compute; reflexivity. Qed.


(** C8, at the input where the code departs from it.  In a directory with
    neither [.cfignore] nor [.gitignore] the first run of
    [treeline config-pws] exits with 0 and leaves [.cfignore] as a link to
    the missing [.gitignore].  In the second run [os.Stat] follows the link
    and reports that the file does not exist, so the link is created again,
    which fails because the link is there: the run prints the error and
    exits with 1 before any install.  The two configuration files read the
    same after both runs. *)
Theorem config_pws_twice_dangling_link :
  let r1 := Run ["treeline"; "config-pws"] world_fresh in
  let r2 := Run ["treeline"; "config-pws"] r1.2 in
  r1.1 = Exited 0
  /\ fs r1.2 !! ".cfignore" = Some (Link ".gitignore")
  /\ fs r1.2 !! ".gitignore" = None
  /\ r2.1 = Exited 1
  /\ emitted (Run ["treeline"; "config-pws"]) r1.2 =
       [LookPath "treeline";
        WriteFile "config/env/development.js" developmentConfig 420;
        Println [Str "Updated config/env/development.js"];
        WriteFile "config/local.js" localConfig 420;
        Println [Str "Updated config/local.js"];
        Stat ".cfignore";
        Symlink ".gitignore" ".cfignore";
        Println [Str "Could not link .cfignore to .gitignore"; Err ErrExist];
        Exit 1]
  /\ fs r2.2 = fs r1.2.
Proof. repeat split; vm_compute; reflexivity. Qed.




(** ** Further properties: the provisioner and the deploy *)

Ltac norm_trace := cbn; rewrite <- ?app_assoc; cbn.

(** Closes a goal [succeed w tr calls] on a concrete list of calls from the
    hypotheses left by [split_faults]. *)
Ltac close_succeed := norm_trace; repeat split; assumption.

(** Finds the call of a concrete plan that failed. *)
Ltac find_failure :=
  (exists (@nil event)) + (eexists [_]) + (eexists [_; _]) + (eexists [_; _; _])
  + (eexists [_; _; _; _]) + (eexists [_; _; _; _; _])
  + (eexists [_; _; _; _; _; _]) + (eexists [_; _; _; _; _; _; _]);
  eexists _, _, _;
  split; [reflexivity|];
  split; [close_succeed|];
  split; [norm_trace; eassumption|reflexivity].

Ltac close_plan :=
  first [ left; split; [close_succeed|reflexivity] | right; find_failure ].

(** X1.  [createServices] issues the requests the scan calls for, in the order
    of the code, until one fails: a listing that fails, or the first create
    or bind that fails, is printed and ends the process with status 1, and
    nothing is requested after it.  Files are never touched. *)
Theorem createServices_stops_at_first_failure (w : World) :
  match fault w (trace w) GetServices with
  | Some e =>
      createServices w = (Exited 1, extend w [GetServices; Println [Err e]; Exit 1])
  | None =>
      let plan := needed (scan (platform w)) in
      let tr := trace w ++ [GetServices] in
      (succeed w tr plan
       /\ createServices w = (Returned tt, extend w (GetServices :: plan)))
      \/ (exists pre c post e,
             plan = pre ++ c :: post
             /\ succeed w tr pre
             /\ fault w (tr ++ pre) c = Some e
             /\ createServices w =
                  (Exited 1, extend w (GetServices :: pre ++ [c; Println [Err e]; Exit 1])))
  end.
Proof.
  exec. destruct (fault w (trace w) GetServices) eqn:Hg; flatten; [done|].
  unfold needed, cs_redis, bs_redis, cs_sql, bs_sql.
  destruct (scan (platform w)) as [[] [] [] []]; flatten; split_faults; close_plan.
Qed.

(** X5.  A deploy, once the tool is found, issues its platform calls in the
    order push, set-env, listing, the creates and binds the scan calls for,
    start, until one fails: the first call that fails is printed and ends the
    process with status 1, and nothing is issued after it; when none fails the
    process exits with 0.  Files are never touched and no process is
    started. *)
Theorem deploy_stops_at_first_failure (w : World) (rest : list string) :
  resolvable w "treeline" ->
  let plan := deploy_plan (scan (platform w)) in
  let tr := trace w ++ [LookPath "treeline"] in
  (succeed w tr plan
   /\ Run ("treeline" :: "deploy" :: rest) w =
        (Exited 0, extend w (LookPath "treeline" :: plan ++ [Exit 0])))
  \/ (exists pre c post e,
         plan = pre ++ c :: post
         /\ succeed w tr pre
         /\ fault w (tr ++ pre) c = Some e
         /\ Run ("treeline" :: "deploy" :: rest) w =
              (Exited 1,
               extend w (LookPath "treeline" :: pre ++ [c; Println [Err e]; Exit 1]))).
Proof.
  unfold resolvable. intros Hl. exec. use Hl.
  unfold deploy_plan, needed, cmd_push, cmd_set_env, cmd_start,
    cs_redis, bs_redis, cs_sql, bs_sql.
  split_faults.
  1-3: solve [close_plan].
  destruct (scan (platform w)) as [[] [] [] []]; flatten; split_faults.
  all: solve [close_plan].
Qed.

Lemma deploy_stops_at_first_failure_witness :
  let w := world_push_refused in
  let plan := deploy_plan (scan (platform w)) in
  let tr := trace w ++ [LookPath "treeline"] in
  resolvable w "treeline"
  /\ ((succeed w tr plan
       /\ Run ["treeline"; "deploy"] w =
            (Exited 0, extend w (LookPath "treeline" :: plan ++ [Exit 0])))
      \/ (exists pre c post e,
             plan = pre ++ c :: post
             /\ succeed w tr pre
             /\ fault w (tr ++ pre) c = Some e
             /\ Run ["treeline"; "deploy"] w =
                  (Exited 1,
                   extend w (LookPath "treeline" :: pre ++ [c; Println [Err e]; Exit 1])))).
Proof.
  assert (resolvable world_push_refused "treeline") as H by reflexivity.
  exact (conj H (deploy_stops_at_first_failure world_push_refused [] H)).
Defined.

(** ** Further properties: configuration *)

Ltac close_steps H :=
  let Hf := fresh in let Hp := fresh in let Ht := fresh in
  destruct H as (Hf & Hp & Ht); unfold steps, extend, record; cbn;
  rewrite ?Hf, ?Hp, ?Ht; repeat split;
  rewrite <- ?app_assoc; cbn; rewrite <- ?app_assoc; reflexivity.

Lemma writeDevelopmentConfig_shape (w : World) :
  exists r w' evs,
    writeDevelopmentConfig w = (r, w')
    /\ steps w evs w'
    /\ write_shape r evs.
Proof.
  unfold writeDevelopmentConfig, bind.
  destruct (ioutil_WriteFile_steps "config/env/development.js" developmentConfig 420 w)
    as (err1 & w1 & -> & H1).
  destruct err1 as [e1|]; cbn [if_err].
  { eexists _, _, _. split; [reflexivity|]. split; [|apply (write_first_fails e1)].
    eapply (steps_trans _ _ _ [_] [_; _]); [exact H1|].
    eapply (steps_trans _ _ _ [_] [_]); apply steps_record. }
  cbn [ret fmt_Println].
  destruct (ioutil_WriteFile_steps "config/local.js" localConfig 420
              (record (Println [Str "Updated config/env/development.js"]) w1))
    as (err2 & w2 & -> & H2).
  assert (steps w [WriteFile "config/env/development.js" developmentConfig 420;
                   Println [Str "Updated config/env/development.js"];
                   WriteFile "config/local.js" localConfig 420] w2) as H12.
  { eapply (steps_trans _ _ _ [_] [_; _]); [exact H1|].
    eapply (steps_trans _ _ _ [_] [_]); [apply steps_record|exact H2]. }
  destruct err2 as [e2|]; cbn [if_err ret].
  - eexists _, _, _. split; [reflexivity|]. split; [|apply (write_second_fails e2)].
    eapply (steps_trans _ _ _ [_; _; _] [_; _]); [exact H12|].
    eapply (steps_trans _ _ _ [_] [_]); apply steps_record.
  - eexists _, _, _. split; [reflexivity|]. split; [|apply write_both].
    eapply (steps_trans _ _ _ [_; _; _] [_]); [exact H12|]. apply steps_record.
Qed.

(** Every run of [treeline config-pws] that finds the tool has one of the
    shapes of [config_shape]; the environment and the platform are as
    before. *)
Lemma config_pws_shape (w : World) (rest : list string) :
  resolvable w "treeline" ->
  exists evs,
    steps w evs (Run ("treeline" :: "config-pws" :: rest) w).2
    /\ config_shape (Run ("treeline" :: "config-pws" :: rest) w).1 evs.
Proof.
  unfold resolvable. intros Hl. exec. use Hl.
  destruct (writeDevelopmentConfig_shape (extend w [LookPath "treeline"]))
    as (r & w1 & evs & Hwd & Hs1 & Hsh).
  unfold extend in Hwd. rewrite Hwd.
  assert (steps w (LookPath "treeline" :: evs) w1) as Hs1'.
  { apply (steps_trans _ _ _ [_] _ (steps_extend w _) Hs1). }
  inversion Hsh; subst; cbn.
  1, 2: eexists; split; [exact Hs1'|]; by apply config_write_fails.
  destruct (os_Stat_steps ".cfignore" w1) as (err & ->).
  assert (steps w (LookPath "treeline" :: writes_ok ++ [Stat ".cfignore"])
            (record (Stat ".cfignore") w1)) as Hs2.
  { apply (steps_trans _ _ _ (_ :: _) [_] Hs1'), steps_record. }
  destruct (os_IsNotExist err).
  - destruct (os_Symlink_steps ".gitignore" ".cfignore" (record (Stat ".cfignore") w1))
      as (err' & w2 & -> & Hs3 & _).
    pose proof (steps_trans _ _ _ _ _ Hs2 Hs3) as Hs4.
    destruct err' as [e|]; cbn.
    + eexists. split; [|apply (config_link_fails e)]. close_steps Hs4.
    + rewrite npmInstalls_spec. cbn.
      eexists. split; [|apply (config_done true)]. close_steps Hs4.
  - cbn. rewrite npmInstalls_spec. cbn.
    eexists. split; [|apply (config_done false)]. close_steps Hs1'.
Qed.

(** ** Further properties: the dispatcher as a whole *)

Lemma steps_refl (w : World) : steps w [] w.
Proof. unfold steps. by rewrite app_nil_r. Qed.

(** [ending], read off the end of a concrete list of events. *)
Lemma ending_of_rev (r : result unit) (evs : list event) :
  match r, rev evs with
  | Returned _, _ | Panicked, _ => True
  | Exited 0, Exit 0 :: _ => True
  | Exited 1, Exit 1 :: Println _ :: _ => True
  | _, _ => False
  end ->
  ending r evs.
Proof.
  destruct r as [[]|code|]; [constructor| |constructor].
  destruct (rev evs) as [|e1 l] eqn:Hrev.
  { by destruct code as [|[]|]. }
  assert (evs = rev l ++ [e1]) as ->.
  { rewrite <- (rev_involutive evs), Hrev. reflexivity. }
  destruct code as [|[]|]; try done.
  - destruct e1 as [| |[|[]|]| | | | | | | |]; try done. intros _.
    apply ending_exit_0.
  - destruct e1 as [| |[|[]|]| | | | | | | |]; try done.
    destruct l as [|[] l']; try done. intros _.
    cbn [rev]. rewrite <- app_assoc. apply ending_exit_1.
Qed.

Lemma deploy_summary (w : World) (rest : list string) :
  resolvable w "treeline" ->
  exists r evs,
    Run ("treeline" :: "deploy" :: rest) w = (r, extend w evs)
    /\ (r = Exited 0 \/ r = Exited 1)
    /\ ending r evs
    /\ forallb deploy_event evs = true
    /\ head evs = Some (LookPath "treeline").
Proof.
  unfold resolvable. intros Hl. exec. use Hl. split_faults.
  4: destruct (scan (platform w)) as [[] [] [] []]; flatten; split_faults.
  all: eexists _, _; split; [reflexivity|];
    split; [auto|]; split; [apply ending_of_rev; exact I|split; reflexivity].
Qed.

Lemma passthrough_summary (w : World) (a1 : string) (rest : list string) :
  resolvable w "treeline" ->
  a1 ≠ "config-pws" -> a1 ≠ "deploy" ->
  exists r evs,
    Run ("treeline" :: a1 :: rest) w = (r, extend w evs)
    /\ (r = Returned tt \/ r = Exited 1)
    /\ ending r evs
    /\ forallb passthrough_event evs = true
    /\ head evs = Some (LookPath "treeline").
Proof.
  unfold resolvable. intros Hl Hc%String.eqb_neq Hd%String.eqb_neq.
  exec. use Hl. use Hc. use Hd. split_faults.
  all: eexists _, _; split; [reflexivity|];
    split; [auto|]; split; [apply ending_of_rev; exact I|split; reflexivity].
Qed.

(** Every run of [Run] goes one of the ways of [dispatched]; only
    [config-pws] changes files. *)
Lemma Run_dispatched (args : list string) (w : World) :
  exists evs,
    steps w evs (Run args w).2
    /\ dispatched w args (Run args w).1 evs
    /\ ((forall rest, args ≠ "treeline" :: "config-pws" :: rest) ->
        fs (Run args w).2 = fs w).
Proof.
  destruct args as [|a0 rest].
  { exists []. split; [apply steps_refl|]. split; [constructor|done]. }
  destruct (String.eqb_spec a0 "treeline") as [->|Hne].
  2: { exists []. apply String.eqb_neq in Hne as Hne'.
       assert (Run (a0 :: rest) w = (Returned tt, w)) as ->
         by (exec; by use Hne').
       split; [apply steps_refl|]. split; [by constructor|done]. }
  destruct (fault w (trace w) (LookPath "treeline")) as [e|] eqn:Hl.
  { eexists. assert (~ resolvable w "treeline") as Hnr
      by (unfold resolvable; congruence).
    assert (Run ("treeline" :: rest) w =
              (Exited 1,
               extend w [LookPath "treeline";
                         Println [Str "Please install treeline using 'npm install -g treeline'"];
                         Exit 1])) as ->
      by (exec; by use Hl).
    split; [apply steps_extend|]. split; [by constructor|done]. }
  destruct rest as [|a1 rest].
  { eexists. assert (Run ["treeline"] w = (Panicked, extend w [LookPath "treeline"])) as ->
      by (exec; by use Hl).
    split; [apply steps_extend|]. split; [by constructor|done]. }
  destruct (String.eqb_spec a1 "config-pws") as [->|Hc].
  { destruct (config_pws_shape w rest Hl) as (evs & Hs & Hsh).
    exists evs. split; [exact Hs|]. split; [by constructor|].
    intros Hno. by destruct (Hno rest). }
  destruct (String.eqb_spec a1 "deploy") as [->|Hd].
  { destruct (deploy_summary w rest Hl) as (r & evs & -> & Hr & He & Ha & Hh).
    exists evs. split; [apply steps_extend|]. split; [by constructor|done]. }
  destruct (passthrough_summary w a1 rest Hl Hc Hd) as (r & evs & -> & Hr & He & Ha & Hh).
  exists evs. split; [apply steps_extend|]. split; [by constructor|done].
Qed.

Lemma steps_emitted {A : Type} (m : M A) (w : World) (evs : list event) :
  steps w evs (m w).2 -> emitted m w = evs.
Proof. intros (_ & _ & Ht). unfold emitted. rewrite Ht. apply drop_app_length. Qed.

Lemma ending_exit_1_app (pre mid : list event) (msg : list operand) :
  ending (Exited 1) (pre ++ mid ++ [Println msg; Exit 1]).
Proof. rewrite app_assoc. constructor. Qed.

Lemma ending_exit_0_app (pre mid : list event) :
  ending (Exited 0) (pre ++ mid ++ [Exit 0]).
Proof. rewrite app_assoc. constructor. Qed.

Lemma write_shape_ending (r : result unit) (evs pre : list event) :
  write_shape r evs -> r = Exited 1 -> ending r (pre ++ evs).
Proof.
  intros [e|e|] Hr; try done.
  - apply (ending_exit_1_app pre [_]).
  - apply (ending_exit_1_app pre [_; _; _]).
Qed.

Lemma config_shape_ending (r : result unit) (evs : list event) :
  config_shape r evs -> (r = Exited 0 \/ r = Exited 1) /\ ending r evs.
Proof.
  intros [evs' Hw|e|linked o1 o2 o3].
  - split; [by right|]. by apply (write_shape_ending _ _ [_]).
  - split; [by right|].
    apply (ending_exit_1_app [] (LookPath "treeline" :: writes_ok ++ [_; _])).
  - split; [by left|].
    destruct linked, o1, o2, o3; apply ending_of_rev; exact I.
Qed.


(** X6.  [Run] panics exactly on an empty command line and on a command line
    that is just [treeline] while the tool is on the search path: no other
    command line and no failure of a call makes it panic. *)
Theorem Run_panics_iff (args : list string) (w : World) :
  (Run args w).1 = Panicked
  <-> args = [] \/ (args = ["treeline"] /\ resolvable w "treeline").
Proof.
  destruct (Run_dispatched args w) as (evs & _ & Hd & _).
  remember (Run args w).1 as r eqn:Hr. clear Hr.
  destruct Hd as [ | a0 rest Hne | rest Hnr | Hres | rest r evs Hres Hsh
                 | rest r evs Hres Hr _ _ _ | a1 rest r evs Hres Hc Hdp Hr _ _ _ ].
  - split; [by left|done].
  - split; [done|]. intros [?|[[= -> ] _]]; done.
  - split; [done|]. intros [?|[[= -> ] ?]]; done.
  - split; [by right|done].
  - destruct (config_shape_ending _ _ Hsh) as [Hr _].
    split; [destruct Hr; congruence|]. intros [?|[? _]]; done.
  - split; [destruct Hr; congruence|]. intros [?|[? _]]; done.
  - split; [destruct Hr; congruence|]. intros [?|[? _]]; done.
Qed.

Lemma dispatched_ending (w : World) (args : list string) (r : result unit)
    (evs : list event) :
  dispatched w args r evs -> ending r evs.
Proof.
  intros [ | a0 rest Hne | rest Hnr | Hres | rest r' evs' Hres Hsh
         | rest r' evs' Hres Hr He _ _ | a1 rest r' evs' Hres Hc Hdp Hr He _ _ ];
    try done; try constructor.
  - apply (ending_exit_1 [_]).
  - by apply config_shape_ending.
Qed.

(** X7.  Whenever [Run] ends the process by [os.Exit], the status is 0 or 1: a
    status 0 comes from [os.Exit(0)] as the last event, and a status 1 is
    always right after a printed line, the last two events of the run. *)
Theorem Run_exits_0_or_1_after_message (args : list string) (w : World) (code : Z) :
  (Run args w).1 = Exited code ->
  (code = 0 /\ exists pre, emitted (Run args) w = pre ++ [Exit 0])
  \/ (code = 1
      /\ exists pre msg, emitted (Run args) w = pre ++ [Println msg; Exit 1]).
Proof.
  destruct (Run_dispatched args w) as (evs & Hs & Hd & _).
  rewrite (steps_emitted _ _ _ Hs).
  apply dispatched_ending in Hd. intros Hr. rewrite Hr in Hd.
  inversion Hd; subst; [left|right]; split; eauto.
Qed.

Lemma Run_exits_0_or_1_after_message_witness :
  (Run ["treeline"; "deploy"] world_no_tool).1 = Exited 1
  /\ ((1 = 0 /\ exists pre, emitted (Run ["treeline"; "deploy"]) world_no_tool = pre ++ [Exit 0])
      \/ (1 = 1
          /\ exists pre msg,
               emitted (Run ["treeline"; "deploy"]) world_no_tool
               = pre ++ [Println msg; Exit 1])).
Proof.
  assert ((Run ["treeline"; "deploy"] world_no_tool).1 = Exited 1) as H by reflexivity.
  exact (conj H (Run_exits_0_or_1_after_message _ _ _ H)).
Defined.

(** X8.  Only [config-pws] and [deploy] end the process with status 0, and they
    never hand control back to the host: a normal return of [Run] comes from
    another command or from the passthrough. *)
Theorem Run_exit_0_and_return (args : list string) (w : World) :
  ((Run args w).1 = Exited 0 ->
   exists rest,
     args = "treeline" :: "config-pws" :: rest \/ args = "treeline" :: "deploy" :: rest)
  /\ ((Run args w).1 = Returned tt ->
      forall rest,
        args ≠ "treeline" :: "config-pws" :: rest
        /\ args ≠ "treeline" :: "deploy" :: rest).
Proof.
  destruct (Run_dispatched args w) as (evs & _ & Hd & _).
  remember (Run args w).1 as r eqn:Hr. clear Hr.
  destruct Hd as [ | a0 rest Hne | rest Hnr | Hres | rest r evs Hres Hsh
                 | rest r evs Hres Hr _ _ _ | a1 rest r evs Hres Hc Hdp Hr _ _ _ ].
  - done.
  - split; [done|]. intros _ rest'. split; intros [= -> _]; done.
  - done.
  - done.
  - split; [intros _; exists rest; by left|].
    destruct (config_shape_ending _ _ Hsh) as [[-> | ->] _]; done.
  - split; [intros _; exists rest; by right|]. destruct Hr as [-> | ->]; done.
  - split; [destruct Hr as [-> | ->]; done|].
    intros _ rest'. split; intros [= -> _]; done.
Qed.



(** X10.  The dispatcher and the metadata agree on the command: a run of [Run]
    that does anything at all is for a command the plugin registers, and for
    every registered command the first thing [Run] does is to look for the
    delegated tool. *)
Theorem Run_acts_on_registered_commands (args : list string) (w : World) :
  (emitted (Run args) w ≠ [] ->
   exists name, name ∈ registered /\ args !! 0%nat = Some name)
  /\ (forall name rest,
        name ∈ registered ->
        exists evs, emitted (Run (name :: rest)) w = LookPath "treeline" :: evs).
Proof.
  split.
  - destruct (Run_dispatched args w) as (evs & Hs & Hd & _).
    rewrite (steps_emitted _ _ _ Hs).
    remember (Run args w).1 as r eqn:Hr. clear Hr.
    assert ("treeline" ∈ registered) as Hreg by (vm_compute; left).
    destruct Hd; try done; intros _; by exists "treeline".
  - intros name rest Hreg.
    assert (name = "treeline") as ->.
    { vm_compute in Hreg. by apply list_elem_of_singleton in Hreg. }
    destruct (Run_dispatched ("treeline" :: rest) w) as (evs & Hs & Hd & _).
    rewrite (steps_emitted _ _ _ Hs).
    remember (Run _ w).1 as r eqn:Hr. clear Hr.
    inversion Hd as [ | | | | ? ? ? ? Hsh | ? ? ? ? ? ? ? Hh | ? ? ? ? ? ? ? ? ? ? Hh ];
      subst; try done; eauto.
    + destruct Hsh; eauto.
    + destruct evs as [|e evs]; [done|]. injection Hh as ->. eauto.
    + destruct evs as [|e evs]; [done|]. injection Hh as ->. eauto.
Qed.

(** ** Further properties: the scan *)

Lemma existsb_named (name : string) (services : list Service) :
  existsb (named name) services = true
  <-> exists s, s ∈ services /\ Name s = name.
Proof.
  rewrite existsb_exists. unfold named.
  split; intros (s & Hin & Hn); exists s.
  - split; [by apply list_elem_of_In|by apply String.eqb_eq].
  - split; [by apply list_elem_of_In|by apply String.eqb_eq].
Qed.

Lemma existsb_bound (name : string) (services : list Service) :
  existsb (bound name) services = true
  <-> bound_to name "hackday-nc" services.
Proof.
  split; [|by intros [_ ?]%bound_to_bound].
  intros (s & Hin & [Hn Ha]%andb_prop)%existsb_exists.
  apply existsb_exists in Ha as (a & Hain & ->%String.eqb_eq).
  exists s. split; [by apply list_elem_of_In|].
  split; [by apply String.eqb_eq|by apply list_elem_of_In].
Qed.

(** X3.  What the scan of [createServices] computes: a service counts as found
    exactly when some element of the listing has its name, and as bound
    exactly when some element with its name lists [hackday-nc] (the names
    compared as they are, byte for byte); a service counted as bound is
    always counted as found. *)
Theorem scan_flags (services : list Service) :
  (redisFound (scan services) = true
   <-> exists s, s ∈ services /\ Name s = "hackday-rediscloud")
  /\ (redisBound (scan services) = true
      <-> bound_to "hackday-rediscloud" "hackday-nc" services)
  /\ (sqlFound (scan services) = true
      <-> exists s, s ∈ services /\ Name s = "hackday-elephantsql")
  /\ (sqlBound (scan services) = true
      <-> bound_to "hackday-elephantsql" "hackday-nc" services)
  /\ (redisBound (scan services) = true -> redisFound (scan services) = true)
  /\ (sqlBound (scan services) = true -> sqlFound (scan services) = true).
Proof.
  destruct (scan_bound_found services) as [Hr Hs].
  rewrite scan_spec in *. cbn in *.
  repeat split; try assumption;
    try apply existsb_named; try apply existsb_bound;
    (by intros ?%existsb_named) || (by intros ?%existsb_bound).
Qed.

Lemma existsb_Permutation {A : Type} (f : A -> bool) (l l' : list A) :
  l ≡ₚ l' -> existsb f l = existsb f l'.
Proof.
  induction 1 as [|x l l' _ IH|x y l|l l' l'' _ IH1 _ IH2]; cbn.
  - reflexivity.
  - by rewrite IH.
  - by destruct (f x), (f y).
  - congruence.
Qed.

(** X4.  The scan does not depend on the order in which the platform lists the
    services. *)
Theorem scan_Permutation (services services' : list Service) :
  services ≡ₚ services' -> scan services = scan services'.
Proof.
  intros Hp. rewrite !scan_spec.
  by rewrite !(existsb_Permutation _ _ _ Hp).
Qed.

Lemma scan_Permutation_witness :
  platform world_provisioned ≡ₚ reverse (platform world_provisioned)
  /\ scan (platform world_provisioned) = scan (reverse (platform world_provisioned)).
Proof.
  assert (platform world_provisioned ≡ₚ reverse (platform world_provisioned)) as Hp
    by (symmetry; apply reverse_Permutation).
  exact (conj Hp (scan_Permutation _ _ Hp)).
Defined.

(** ** Further properties: what the provisioner never does *)

Ltac not_among :=
  rewrite drop_app_length;
  let Hin := fresh in
  intros Hin;
  repeat (apply elem_of_cons in Hin as [Hin|Hin]; [discriminate Hin|]);
  by apply elem_of_nil in Hin.

(** X2.  [createServices] never provisions twice: it requests no create for a
    service the listing contains, and no bind for a service the listing shows
    as bound to [hackday-nc], whatever the other calls do. *)
Theorem createServices_never_repeats (w : World) :
  ((exists s, s ∈ platform w /\ Name s = "hackday-rediscloud") ->
   cs_redis ∉ emitted createServices w)
  /\ (bound_to "hackday-rediscloud" "hackday-nc" (platform w) ->
      bs_redis ∉ emitted createServices w)
  /\ ((exists s, s ∈ platform w /\ Name s = "hackday-elephantsql") ->
      cs_sql ∉ emitted createServices w)
  /\ (bound_to "hackday-elephantsql" "hackday-nc" (platform w) ->
      bs_sql ∉ emitted createServices w).
Proof.
  assert (forall flag : flags -> bool,
             flag (scan (platform w)) = true ->
             forall c : event,
               (forall fl, flag fl = true -> c ∉ needed fl) ->
               c ≠ GetServices ->
               (forall a, c ≠ Println a) -> (forall n, c ≠ Exit n) ->
               c ∉ emitted createServices w) as Hgen.
  { intros flag Hflag c Hnot Hg Hp He. unfold emitted. exec.
    split_faults.
    { rewrite drop_app_length. rewrite !not_elem_of_cons.
      repeat split; auto. apply not_elem_of_nil. }
    specialize (Hnot _ Hflag). revert Hnot.
    unfold needed, cs_redis, bs_redis, cs_sql, bs_sql.
    destruct (scan (platform w)) as [[] [] [] []]; flatten; split_faults.
    all: rewrite drop_app_length, !not_elem_of_cons; intros Hnot.
    all: repeat split; auto; try tauto; try apply not_elem_of_nil. }
  unfold cs_redis, bs_redis, cs_sql, bs_sql.
  repeat split.
  - intros Hf%existsb_named. apply (Hgen redisFound); try done.
    { by rewrite scan_spec. }
    intros [[] [] [] []] [=]; unfold needed, cs_redis, bs_redis, cs_sql, bs_sql; cbn.
    all: rewrite ?not_elem_of_cons; repeat split; try done; apply not_elem_of_nil.
  - intros Hf%existsb_bound. apply (Hgen redisBound); try done.
    { by rewrite scan_spec. }
    intros [[] [] [] []] [=]; unfold needed, cs_redis, bs_redis, cs_sql, bs_sql; cbn.
    all: rewrite ?not_elem_of_cons; repeat split; try done; apply not_elem_of_nil.
  - intros Hf%existsb_named. apply (Hgen sqlFound); try done.
    { by rewrite scan_spec. }
    intros [[] [] [] []] [=]; unfold needed, cs_redis, bs_redis, cs_sql, bs_sql; cbn.
    all: rewrite ?not_elem_of_cons; repeat split; try done; apply not_elem_of_nil.
  - intros Hf%existsb_bound. apply (Hgen sqlBound); try done.
    { by rewrite scan_spec. }
    intros [[] [] [] []] [=]; unfold needed, cs_redis, bs_redis, cs_sql, bs_sql; cbn.
    all: rewrite ?not_elem_of_cons; repeat split; try done; apply not_elem_of_nil.
Qed.

Lemma createServices_never_repeats_witness :
  (cs_redis ∉ emitted createServices world_provisioned)
  /\ (bs_redis ∉ emitted createServices world_provisioned)
  /\ (cs_sql ∉ emitted createServices world_provisioned)
  /\ (bs_sql ∉ emitted createServices world_provisioned).
Proof.
  assert (bound_to "hackday-rediscloud" "hackday-nc" (platform world_provisioned))
    as Hr.
  { exists (mkService "hackday-rediscloud" ["hackday-nc"]).
    split; [do 2 apply list_elem_of_further; apply list_elem_of_here|].
    split; [reflexivity|apply list_elem_of_here]. }
  assert (bound_to "hackday-elephantsql" "hackday-nc" (platform world_provisioned))
    as Hs.
  { exists (mkService "hackday-elephantsql" ["other-app"; "hackday-nc"]).
    split; [apply list_elem_of_here|].
    split; [reflexivity|apply list_elem_of_further, list_elem_of_here]. }
  destruct (createServices_never_repeats world_provisioned) as (H1 & H2 & H3 & H4).
  split; [apply H1|split; [exact (H2 Hr)|split; [apply H3|exact (H4 Hs)]]].
  - destruct Hr as (s & ? & ? & _). by exists s.
  - destruct Hs as (s & ? & ? & _). by exists s.
Defined.

(** ** Further properties: the configuration files *)

(** [writeDevelopmentConfig] on configuration files that are regular or
    absent, whatever the environment does to the two writes. *)
Lemma writeDevelopmentConfig_regular (w : World) (old_dev old_local : option string) :
  fs w !! "config/env/development.js" = File <$> old_dev ->
  fs w !! "config/local.js" = File <$> old_local ->
  writeDevelopmentConfig w =
    match fault w (trace w)
            (WriteFile "config/env/development.js" developmentConfig 420) with
    | Some e =>
        (Exited 1,
         extend w [WriteFile "config/env/development.js" developmentConfig 420;
                   Println [Str "Error writing configuration"; Err e]; Exit 1])
    | None =>
        match fault w
                (trace w ++
                 [WriteFile "config/env/development.js" developmentConfig 420;
                  Println [Str "Updated config/env/development.js"]])
                (WriteFile "config/local.js" localConfig 420) with
        | Some e =>
            (Exited 1,
             extend
               (set_fs (<["config/env/development.js" := File developmentConfig]> (fs w)) w)
               [WriteFile "config/env/development.js" developmentConfig 420;
                Println [Str "Updated config/env/development.js"];
                WriteFile "config/local.js" localConfig 420;
                Println [Str "Error writing configuration"; Err e]; Exit 1])
        | None => (Returned tt, extend (set_fs (written (fs w)) w) writes_ok)
        end
    end.
Proof.
  intros Hdev Hloc. unfold writeDevelopmentConfig, bind, written, writes_ok.
  rewrite (ioutil_WriteFile_regular _ "config/env/development.js" _ _ old_dev)
    by exact Hdev.
  destruct (fault w _ (WriteFile "config/env/development.js" _ _)) as [e1|]; cbn.
  { by flatten. }
  rewrite (ioutil_WriteFile_regular _ "config/local.js" _ _ old_local)
    by (cbn; by rewrite lookup_insert_ne).
  flatten.
  destruct (fault w _ (WriteFile "config/local.js" _ _)) as [e2|];
    unfold fmt_Println, os_Exit; by flatten.
Qed.



(** ** Further properties: the link step *)

(** Takes a goal about a run of [treeline config-pws] to the call of
    [os.Stat], given the lookup [Hl], the files [Hdev], [Hloc] and the two
    writes [Hw1], [Hw2]. *)
Ltac to_stat w Hl Hdev Hloc Hw1 Hw2 :=
  exec; use Hl;
  let H := fresh in
  pose proof (writeDevelopmentConfig_regular (extend w [LookPath "treeline"])
                _ _ Hdev Hloc) as H;
  unfold extend in H; cbn [fs platform fault trace] in H; rewrite H; clear H;
  unfold writes_ok, written; flatten; use Hw1; use Hw2;
  unfold os_Stat; flatten.

(** X13.  An error of [os.Stat] other than "does not exist" is passed over: the
    link is not attempted, nothing is printed for it, the three installs run
    and the command exits with 0. *)
Theorem config_pws_stat_error_skips_link (w : World) (rest : list string)
    (old_dev old_local : option string) (e : error) :
  resolvable w "treeline" ->
  fs w !! "config/env/development.js" = File <$> old_dev ->
  fs w !! "config/local.js" = File <$> old_local ->
  writes_succeed w ->
  fault w (before_stat w) (Stat ".cfignore") = Some e ->
  e ≠ ErrNotExist ->
  let r := Run ("treeline" :: "config-pws" :: rest) w in
  r.1 = Exited 0
  /\ fs r.2 = written (fs w)
  /\ exists o1 o2 o3,
       emitted (Run ("treeline" :: "config-pws" :: rest)) w =
         LookPath "treeline" :: writes_ok ++ [Stat ".cfignore"] ++
         attempt "connect-redis@1.4.5" o1 ++
         attempt "sails-postgresql" o2 ++
         attempt "socket.io-redis" o3 ++ [Exit 0].
Proof.
  unfold resolvable, writes_succeed, before_stat, writes_ok, emitted.
  intros Hl Hdev Hloc [Hw1 Hw2] Hst Hne. cbn zeta.
  to_stat w Hl Hdev Hloc Hw1 Hw2. use Hst.
  destruct e; try done.
  all: rewrite npmInstalls_spec; flatten; rewrite drop_app_length.
  all: repeat split; eexists _, _, _; by rewrite <- ?app_assoc.
Qed.

Lemma config_pws_stat_error_skips_link_witness :
  let r := Run ["treeline"; "config-pws"] world_stat_denied in
  r.1 = Exited 0
  /\ fs r.2 = written (fs world_stat_denied)
  /\ exists o1 o2 o3,
       emitted (Run ["treeline"; "config-pws"]) world_stat_denied =
         LookPath "treeline" :: writes_ok ++ [Stat ".cfignore"] ++
         attempt "connect-redis@1.4.5" o1 ++
         attempt "sails-postgresql" o2 ++
         attempt "socket.io-redis" o3 ++ [Exit 0].
Proof.
  apply (config_pws_stat_error_skips_link world_stat_denied [] None None
           (ErrOther "permission denied")); try reflexivity.
  - split; reflexivity.
  - discriminate.
Defined.

(** X14.  A [.cfignore] that is a regular file is kept: [os.Stat] finds it, the
    link is not attempted, the entry stays as it was, and the run goes on to
    the installs and exits with 0. *)
Theorem config_pws_keeps_cfignore (w : World) (rest : list string)
    (old_dev old_local : option string) (ignore : string) :
  resolvable w "treeline" ->
  fs w !! "config/env/development.js" = File <$> old_dev ->
  fs w !! "config/local.js" = File <$> old_local ->
  writes_succeed w ->
  fault w (before_stat w) (Stat ".cfignore") = None ->
  fs w !! ".cfignore" = Some (File ignore) ->
  let r := Run ("treeline" :: "config-pws" :: rest) w in
  r.1 = Exited 0
  /\ fs r.2 = written (fs w)
  /\ fs r.2 !! ".cfignore" = Some (File ignore)
  /\ exists o1 o2 o3,
       emitted (Run ("treeline" :: "config-pws" :: rest)) w =
         LookPath "treeline" :: writes_ok ++ [Stat ".cfignore"] ++
         attempt "connect-redis@1.4.5" o1 ++
         attempt "sails-postgresql" o2 ++
         attempt "socket.io-redis" o3 ++ [Exit 0].
Proof.
  unfold resolvable, writes_succeed, before_stat, writes_ok, emitted.
  intros Hl Hdev Hloc [Hw1 Hw2] Hst Hcf. cbn zeta.
  to_stat w Hl Hdev Hloc Hw1 Hw2. use Hst.
  rewrite (resolve_file _ _ ".cfignore" ignore) by (by simplify_map_eq).
  flatten.
  rewrite npmInstalls_spec; flatten; rewrite drop_app_length.
  repeat split; [by simplify_map_eq|].
  eexists _, _, _; by rewrite <- ?app_assoc.
Qed.

Lemma config_pws_keeps_cfignore_witness :
  let r := Run ["treeline"; "config-pws"] world_with_cfignore in
  r.1 = Exited 0
  /\ fs r.2 = written (fs world_with_cfignore)
  /\ fs r.2 !! ".cfignore" = Some (File "node_modules")
  /\ exists o1 o2 o3,
       emitted (Run ["treeline"; "config-pws"]) world_with_cfignore =
         LookPath "treeline" :: writes_ok ++ [Stat ".cfignore"] ++
         attempt "connect-redis@1.4.5" o1 ++
         attempt "sails-postgresql" o2 ++
         attempt "socket.io-redis" o3 ++ [Exit 0].
Proof.
  apply (config_pws_keeps_cfignore world_with_cfignore [] None None "node_modules");
    try reflexivity.
  split; reflexivity.
Defined.

(** X15.  When [.cfignore] is absent and the link cannot be made, the error is
    printed with its cause and the process exits with 1 before any install;
    the two configuration files have been written by then and stay
    written. *)
Theorem config_pws_link_failure (w : World) (rest : list string)
    (old_dev old_local : option string) (e : error) :
  resolvable w "treeline" ->
  fs w !! "config/env/development.js" = File <$> old_dev ->
  fs w !! "config/local.js" = File <$> old_local ->
  writes_succeed w ->
  fault w (before_stat w) (Stat ".cfignore") = None ->
  fs w !! ".cfignore" = None ->
  fault w (before_stat w ++ [Stat ".cfignore"]) (Symlink ".gitignore" ".cfignore")
    = Some e ->
  let r := Run ("treeline" :: "config-pws" :: rest) w in
  r.1 = Exited 1
  /\ fs r.2 = written (fs w)
  /\ emitted (Run ("treeline" :: "config-pws" :: rest)) w =
       LookPath "treeline" :: writes_ok ++
       [Stat ".cfignore"; Symlink ".gitignore" ".cfignore";
        Println [Str "Could not link .cfignore to .gitignore"; Err e]; Exit 1].
Proof.
  unfold resolvable, writes_succeed, before_stat, writes_ok, emitted.
  intros Hl Hdev Hloc [Hw1 Hw2] Hst Hcf Hln. cbn zeta.
  to_stat w Hl Hdev Hloc Hw1 Hw2. use Hst.
  rewrite (resolve_missing _ _ ".cfignore") by (by simplify_map_eq).
  flatten. unfold os_Symlink. flatten.
  rewrite <- app_assoc in Hln. cbn in Hln. use Hln.
  rewrite drop_app_length. done.
Qed.

Lemma config_pws_link_failure_witness :
  let r := Run ["treeline"; "config-pws"] world_link_refused in
  r.1 = Exited 1
  /\ fs r.2 = written (fs world_link_refused)
  /\ emitted (Run ["treeline"; "config-pws"]) world_link_refused =
       LookPath "treeline" :: writes_ok ++
       [Stat ".cfignore"; Symlink ".gitignore" ".cfignore";
        Println [Str "Could not link .cfignore to .gitignore";
                 Err (ErrOther "operation not permitted")]; Exit 1].
Proof.
  apply (config_pws_link_failure world_link_refused [] None None
           (ErrOther "operation not permitted")); try reflexivity.
  split; reflexivity.
Defined.






(** ** Further properties: writes through symbolic links *)







(** In the directory of [world_aliased] both files read as the second
    literal after the writes. *)
Example writeDevelopmentConfig_aliased :
  let m := fs (writeDevelopmentConfig world_aliased).2 in
  contents m "config/local.js" = Some localConfig
  /\ contents m "config/env/development.js" = Some localConfig.
Proof. split; vm_compute; reflexivity. Qed.

(** ** Further properties: the installs *)





